(** * Real-time location tracking client of the sub-admin dashboard

  A shallow embedding of the tracking client:
  - [JS]: the JavaScript values the code computes with (IEEE-754 doubles
    and their arithmetic, [parseFloat], truthiness, strict equality with a
    literal);
  - [Browser]: the socket service of [src/services/socketService.ts]
    (connection manager, reconnection policy, room frames) over an
    explicit world of transports, promises and timers;
  - [Tracking]: the handlers of the [EmployeeTracking] component (location
    update normalizer, ride selection, test mode, roster updates);
  - [Feed]: the callback of the synthetic feed;
  - [App]: the mounted component as a transition system, with its effects,
    controls, socket listeners and timers;
  - [MapView], [Modal], [Api]: the map markers, the ride picker and the
    request headers. *)

From Stdlib Require Import ZArith Lia Ascii String SpecFloat.
From stdpp Require Import base option strings list gmap pretty.

(** ** JavaScript values *)

Module JS.

(** A JS number is a binary64 float: signed zeros, infinities, one NaN and
    the finite values [(-1)^s * m * 2^e]. *)
Definition number : Type := spec_float.

Definition prec : Z := 53.
Definition emax : Z := 1024.

Definition NaN : number := S754_nan.
Definition zero : number := S754_zero false.

(** [isNaN(x)] on a number. *)
Definition isNaN (x : number) : bool :=
  match x with S754_nan => true | _ => false end.

(** [x === 0]: both signed zeros are strictly equal to the literal 0. *)
Definition is_zero (x : number) : bool :=
  match x with S754_zero _ => true | _ => false end.

(** [Number.isFinite(x)]. *)
Definition is_finite (x : number) : bool :=
  match x with S754_zero _ | S754_finite _ _ _ => true | _ => false end.

(** ToBoolean on a number: 0, -0 and NaN are falsy. *)
Definition truthy (x : number) : bool :=
  match x with S754_zero _ | S754_nan => false | _ => true end.

(** The double nearest to [(-1)^neg * m * 10^e] (ties to even). *)
Definition of_decimal (neg : bool) (m : N) (e : Z) : number :=
  match m with
  | N0 => S754_zero neg
  | Npos p =>
      if (0 <=? e)%Z
      then binary_round prec emax neg (p * Z.to_pos (10 ^ e)) 0
      else SFdiv prec emax (S754_finite neg p 0)
                 (S754_finite false (Z.to_pos (10 ^ (- e))) 0)
  end.

(** An integer as a number, as in a numeric literal such as [8]. *)
Definition of_Z (z : Z) : number :=
  of_decimal (z <? 0)%Z (Z.abs_N z) 0.

(** *** [parseFloat] *)

(** A string holds the UTF-8 encoding of the JS string, as a string literal
    of this file does. The white space [parseFloat] skips is
    StrWhiteSpaceChar, that is WhiteSpace or LineTerminator: TAB, LF, VT,
    FF, CR, SP, NBSP (U+00A0), the other space separators (U+1680, U+2000
    to U+200A, U+202F, U+205F, U+3000), LS (U+2028), PS (U+2029) and
    ZWNBSP (U+FEFF). *)
Definition white_space (cp : N) : bool :=
  ((9 <=? cp) && (cp <=? 13) || (cp =? 32) || (cp =? 160) || (cp =? 5760)
   || (8192 <=? cp) && (cp <=? 8202) || (cp =? 8232) || (cp =? 8233)
   || (cp =? 8239) || (cp =? 8287) || (cp =? 12288) || (cp =? 65279))%N.

(** The payload of a continuation byte [10xxxxxx]. *)
Definition continuation (c : ascii) : option N :=
  let n := Ascii.N_of_ascii c in
  if ((128 <=? n) && (n <=? 191))%N then Some (n - 128)%N else None.

(** The code point encoded by one byte, [0xxxxxxx]. The byte [10100000]
    starts no character of a UTF-8 text; where one should start it is read
    as the NBSP of a one-byte encoding. *)
Definition code_point1 (a : ascii) : option N :=
  let n := Ascii.N_of_ascii a in
  if ((n <? 128) || (n =? 160))%N then Some n else None.

(** By two bytes, [110xxxxx 10xxxxxx], from U+0080. *)
Definition code_point2 (a b : ascii) : option N :=
  let n := Ascii.N_of_ascii a in
  match continuation b with
  | Some y =>
      let cp := ((n - 192) * 64 + y)%N in
      if ((192 <=? n) && (n <=? 223) && (128 <=? cp))%N then Some cp else None
  | None => None
  end.

(** By three bytes, [1110xxxx 10xxxxxx 10xxxxxx], from U+0800. *)
Definition code_point3 (a b c : ascii) : option N :=
  let n := Ascii.N_of_ascii a in
  match continuation b, continuation c with
  | Some y, Some z =>
      let cp := ((n - 224) * 4096 + y * 64 + z)%N in
      if ((224 <=? n) && (n <=? 239) && (2048 <=? cp))%N then Some cp else None
  | _, _ => None
  end.

Definition is_space (cp : option N) : bool :=
  match cp with
  | Some n => white_space n
  | None => false
  end.

(** Drops the leading StrWhiteSpaceChar characters; no white space is
    encoded by four bytes. *)
Fixpoint trim_start (s : string) : string :=
  match s with
  | String a r1 =>
      if is_space (code_point1 a) then trim_start r1
      else
        match r1 with
        | String b r2 =>
            if is_space (code_point2 a b) then trim_start r2
            else
              match r2 with
              | String c r3 =>
                  if is_space (code_point3 a b c) then trim_start r3 else s
              | EmptyString => s
              end
        | EmptyString => s
        end
  | EmptyString => s
  end.

Definition digit (c : ascii) : option N :=
  let n := Ascii.N_of_ascii c in
  if ((48 <=? n) && (n <=? 57))%N then Some (n - 48)%N else None.

(** Reads the longest run of decimal digits, accumulating its value onto
    [acc]; returns the value, the number of digits read and the rest. *)
Fixpoint digits (s : string) (acc : N) (cnt : nat) : N * nat * string :=
  match s with
  | String c r =>
      match digit c with
      | Some d => digits r (10 * acc + d)%N (S cnt)
      | None => (acc, cnt, s)
      end
  | EmptyString => (acc, cnt, s)
  end.

Definition sign (s : string) : bool * string :=
  match s with
  | String "-" r => (true, r)
  | String "+" r => (false, r)
  | _ => (false, s)
  end.

(** ExponentPart: [e] or [E], an optional sign and at least one digit;
    anything else is not part of the literal and counts as exponent 0. *)
Definition exponent (s : string) : Z :=
  match s with
  | String c r =>
      if (Ascii.eqb c "e" || Ascii.eqb c "E")%bool then
        let '(neg, r') := sign r in
        let '(v, cnt, _) := digits r' 0%N 0%nat in
        match cnt with
        | O => 0%Z
        | S _ => if neg then (- Z.of_N v)%Z else Z.of_N v
        end
      else 0%Z
  | EmptyString => 0%Z
  end.

(** [parseFloat(s)]: skip leading white space, read the longest prefix that
    is a StrDecimalLiteral and round its value to a double; NaN when there
    is no such prefix. *)
Definition parseFloat (s : string) : number :=
  let '(neg, s1) := sign (trim_start s) in
  if String.prefix "Infinity" s1 then S754_infinity neg
  else
    let '(ip, ni, s2) := digits s1 0%N 0%nat in
    let '(m, nf, s3) :=
      match s2 with
      | String "." r => digits r ip 0%nat
      | _ => (ip, 0%nat, s2)
      end in
    match (ni + nf)%nat with
    | O => NaN
    | S _ => of_decimal neg m (exponent s3 - Z.of_nat nf)
    end.

(** *** Arithmetic *)

(** [x * y], [x + y] and [x - y], rounded to nearest, ties to even. *)
Definition mul (x y : number) : number := SFmul prec emax x y.
Definition add (x y : number) : number := SFadd prec emax x y.
Definition sub (x y : number) : number := SFsub prec emax x y.

(** [Math.floor(x)]: the largest integer not above [x]; zeros, infinities
    and NaN are returned as they are, and a positive fraction gives +0. *)
Definition floor (x : number) : number :=
  match x with
  | S754_finite neg m e =>
      if (0 <=? e)%Z then x
      else
        let q := (Z.pos m / 2 ^ (- e))%Z in
        let whole := (Z.pos m mod 2 ^ (- e) =? 0)%Z in
        if neg
        then of_decimal true (Z.to_N (if whole then q else q + 1)) 0
        else of_decimal false (Z.to_N q) 0
  | _ => x
  end.

(** The array index a number stands for in [array[x]]: a non-negative
    integer, both zeros being index 0; any other number names no element. *)
Definition index (x : number) : option Z :=
  match x with
  | S754_zero _ => Some 0%Z
  | S754_finite false m e =>
      if (0 <=? e)%Z then Some (Z.pos m * 2 ^ e)%Z
      else if (Z.pos m mod 2 ^ (- e) =? 0)%Z
           then Some (Z.pos m / 2 ^ (- e))%Z
           else None
  | _ => None
  end.

(** [array[x]], [None] standing for [undefined]. *)
Definition at_index {A : Type} (array : list A) (x : number) : option A :=
  match index x with
  | Some i =>
      if (i <? Z.of_nat (length array))%Z then array !! Z.to_nat i else None
  | None => None
  end.

(** A field value of type [string | number]. *)
Inductive value : Type :=
| VStr (s : string)
| VNum (n : number).

(** [v === lit] for a string literal [lit] and a possibly absent field. *)
Definition eq_literal (v : option value) (lit : string) : bool :=
  match v with
  | Some (VStr s) => String.eqb s lit
  | _ => false
  end.

End JS.

(** ** The browser world and the socket service *)

Module Ride.
(** The [currentRide] state: the ride whose room is being tracked. *)
Record t : Type := mk { rideId : Z; riderId : Z; employeeName : string }.
End Ride.

Module Browser.

(** Outgoing frames of [SocketEvents]. *)
Inductive Frame : Type :=
| JoinRideRoom (rideId userId : Z) (role : string)
| LeaveRideRoom (rideId userId : Z).

Inductive PromiseState : Type :=
| Pending
| Resolved
| Rejected (error : string).

(** The callbacks the program hands to [setTimeout] and [setInterval],
    each with the variables it is closed over. The callback of
    [startTestMode] is closed over the [currentRide] of the render that
    started it, over that render's [handleLocationUpdate], hence its
    [selectedEmployee], and over the counter [locationIndex] it owns. *)
Inductive Task : Type :=
| Reconnect                       (* socketService.ts, 'disconnect' handler *)
| ConnectTimeout (p : nat)        (* socketService.ts, end of connect() *)
| TestFeed (currentRide : Ride.t) (selectedEmployee : option string)
    (locationIndex : nat)         (* startTestMode *)
| LiveTracking.                   (* the 'Simulate real-time updates' effect *)

Record Timer : Type := { delay : Z; repeat : bool; task : Task }.

(** A transport created by [io(...)]. [owner] is the promise whose
    [resolve]/[reject] the handlers registered on it are closed over;
    [destroyed] is set by [socket.disconnect()]. *)
Record Socket : Type := { connected : bool; destroyed : bool; owner : nat }.

Inductive Effect : Type :=
| Io (t : nat)
| Emit (t : nat) (f : Frame)
| SetTimer (id : nat) (tm : Timer)
| ClearTimer (id : nat).

(** The fields of the [SocketService] singleton. *)
Record SocketService : Type := {
  socket : option nat;
  isConnected : bool;
  reconnectAttempts : nat
}.

Definition maxReconnectAttempts : nat := 5.

Record World : Type := {
  service : SocketService;
  sockets : list Socket;
  promises : list PromiseState;
  timers : gmap nat Timer;
  nextTimer : nat;
  effects : list Effect
}.

(** Timer handles are positive integers. *)
Definition initial : World := {|
  service := {| socket := None; isConnected := false; reconnectAttempts := 0 |};
  sockets := [];
  promises := [];
  timers := ∅;
  nextTimer := 1;
  effects := []
|}.

(** *** Primitive updates *)

Definition set_service (s : SocketService) (w : World) : World :=
  {| service := s; sockets := sockets w; promises := promises w;
     timers := timers w; nextTimer := nextTimer w; effects := effects w |}.

Definition set_socket (t : option nat) (w : World) : World :=
  set_service {| socket := t; isConnected := isConnected (service w);
                 reconnectAttempts := reconnectAttempts (service w) |} w.

Definition set_isConnected (b : bool) (w : World) : World :=
  set_service {| socket := socket (service w); isConnected := b;
                 reconnectAttempts := reconnectAttempts (service w) |} w.

Definition set_reconnectAttempts (n : nat) (w : World) : World :=
  set_service {| socket := socket (service w);
                 isConnected := isConnected (service w);
                 reconnectAttempts := n |} w.

Definition perform (e : Effect) (w : World) : World :=
  {| service := service w; sockets := sockets w; promises := promises w;
     timers := timers w; nextTimer := nextTimer w;
     effects := effects w ++ [e] |}.

Definition set_sockets (l : list Socket) (w : World) : World :=
  {| service := service w; sockets := l; promises := promises w;
     timers := timers w; nextTimer := nextTimer w; effects := effects w |}.

Definition set_promises (l : list PromiseState) (w : World) : World :=
  {| service := service w; sockets := sockets w; promises := l;
     timers := timers w; nextTimer := nextTimer w; effects := effects w |}.

(** [new Promise(...)]: a fresh pending promise, named by its index. *)
Definition new_promise (w : World) : nat * World :=
  (length (promises w), set_promises (promises w ++ [Pending]) w).

(** Settling a promise that is already settled does nothing. *)
Definition settle (p : nat) (r : PromiseState) (w : World) : World :=
  match promises w !! p with
  | Some Pending => set_promises (<[p := r]> (promises w)) w
  | _ => w
  end.

Definition resolve (p : nat) : World -> World := settle p Resolved.
Definition reject (p : nat) (error : string) : World -> World :=
  settle p (Rejected error).

(** [setTimeout]/[setInterval]: registers the timer under a fresh handle. *)
Definition setTimer (tm : Timer) (w : World) : nat * World :=
  let id := nextTimer w in
  (id, perform (SetTimer id tm)
         {| service := service w; sockets := sockets w;
            promises := promises w; timers := <[id := tm]> (timers w);
            nextTimer := S id; effects := effects w |}).

(** [clearTimeout]/[clearInterval]. *)
Definition clearTimer (id : nat) (w : World) : World :=
  perform (ClearTimer id)
    {| service := service w; sockets := sockets w; promises := promises w;
       timers := delete id (timers w); nextTimer := nextTimer w;
       effects := effects w |}.

(** [io(SOCKET_URL, ...)]: a new transport, not yet open. *)
Definition io (p : nat) (w : World) : nat * World :=
  let t := length (sockets w) in
  (t, perform (Io t)
        (set_sockets
           (sockets w ++ [{| connected := false; destroyed := false;
                             owner := p |}]) w)).

Definition set_connected (t : nat) (b : bool) (w : World) : World :=
  match sockets w !! t with
  | Some s =>
      set_sockets (<[t := {| connected := b; destroyed := destroyed s;
                             owner := owner s |}]> (sockets w)) w
  | None => w
  end.

Definition destroy (t : nat) (w : World) : World :=
  match sockets w !! t with
  | Some s =>
      set_sockets (<[t := {| connected := connected s; destroyed := true;
                             owner := owner s |}]> (sockets w)) w
  | None => w
  end.

(** [this.socket?.connected] *)
Definition socket_connected (w : World) : bool :=
  match socket (service w) with
  | Some t =>
      match sockets w !! t with
      | Some s => connected s
      | None => false
      end
  | None => false
  end.

(** *** [SocketService] *)

(** [connect()]: returns the promise it creates. The three handlers it
    registers on the new transport are [on_connect], [on_connect_error]
    and [on_disconnect] below, run by [deliver]. *)
Definition connect (w : World) : nat * World :=
  let '(p, w) := new_promise w in
  if socket_connected w then (p, resolve p w)
  else
    let '(t, w) := io p w in
    let w := set_socket (Some t) w in
    let '(_, w) :=
      setTimer {| delay := 10000; repeat := false;
                  task := ConnectTimeout p |} w in
    (p, w).

(** Handler of 'connect', for the promise [p] of the registering call. *)
Definition on_connect (p : nat) (w : World) : World :=
  resolve p (set_reconnectAttempts 0 (set_isConnected true w)).

(** Handler of 'connect_error'. *)
Definition on_connect_error (p : nat) (error : string) (w : World) : World :=
  reject p error (set_isConnected false w).

(** Handler of 'disconnect'. *)
Definition on_disconnect (reason : string) (w : World) : World :=
  let w := set_isConnected false w in
  if negb (String.eqb reason "io client disconnect")
     && (reconnectAttempts (service w) <? maxReconnectAttempts)%nat
  then
    let w := set_reconnectAttempts (S (reconnectAttempts (service w))) w in
    snd (setTimer {| delay := 5000; repeat := false; task := Reconnect |} w)
  else w.

(** [socket.disconnect()] of socket.io-client: the socket is destroyed and,
    when it was connected, closed with reason "io client disconnect",
    which runs its 'disconnect' handler synchronously. *)
Definition socket_disconnect (t : nat) (w : World) : World :=
  match sockets w !! t with
  | Some s =>
      let w := destroy t w in
      if connected s
      then on_disconnect "io client disconnect" (set_connected t false w)
      else w
  | None => w
  end.

(** [disconnect()] *)
Definition disconnect (w : World) : World :=
  match socket (service w) with
  | Some t =>
      let w := socket_disconnect t w in
      set_isConnected false (set_socket None w)
  | None => w
  end.

(** [joinRideRoom(rideId, userId, role)] *)
Definition joinRideRoom (rideId userId : Z) (role : string) (w : World)
  : World :=
  match socket (service w) with
  | Some t =>
      if isConnected (service w)
      then perform (Emit t (JoinRideRoom rideId userId role)) w
      else w
  | None => w
  end.

(** [leaveRideRoom(rideId, userId)] *)
Definition leaveRideRoom (rideId userId : Z) (w : World) : World :=
  match socket (service w) with
  | Some t =>
      if isConnected (service w)
      then perform (Emit t (LeaveRideRoom rideId userId)) w
      else w
  | None => w
  end.

(** [getConnectionStatus()] *)
Definition getConnectionStatus (w : World) : bool :=
  isConnected (service w) && socket_connected w.

(** *** Events of the environment *)

Inductive Event : Type :=
| TransportOpen (t : nat)                     (* 'connect' on socket t *)
| TransportError (t : nat) (error : string)   (* 'connect_error' *)
| TransportClose (t : nat) (reason : string)  (* 'disconnect' *)
| TimerFire (id : nat).

(** What a timer of the socket service runs. The two intervals of the
    component update the roster of the view and touch neither the service
    nor the transports. *)
Definition run_task (k : Task) (w : World) : World :=
  match k with
  | Reconnect => snd (connect w)
  | ConnectTimeout p =>
      if isConnected (service w) then w else reject p "Connection timeout" w
  | TestFeed _ _ _ | LiveTracking => w
  end.

(** One event. An event that cannot occur in the current world (no such
    socket or timer, opening an open socket, closing a closed one) leaves
    it unchanged. A timeout is removed when it fires; an interval stays. *)
Definition deliver (e : Event) (w : World) : World :=
  match e with
  | TransportOpen t =>
      match sockets w !! t with
      | Some s =>
          if connected s || destroyed s then w
          else on_connect (owner s) (set_connected t true w)
      | None => w
      end
  | TransportError t error =>
      match sockets w !! t with
      | Some s =>
          if connected s || destroyed s then w
          else on_connect_error (owner s) error w
      | None => w
      end
  | TransportClose t reason =>
      match sockets w !! t with
      | Some s =>
          if connected s
          then on_disconnect reason (set_connected t false w)
          else w
      | None => w
      end
  | TimerFire id =>
      match timers w !! id with
      | Some tm =>
          let w := if repeat tm then w
                   else {| service := service w; sockets := sockets w;
                           promises := promises w;
                           timers := delete id (timers w);
                           nextTimer := nextTimer w;
                           effects := effects w |} in
          run_task (task tm) w
      | None => w
      end
  end.

Definition run (es : list Event) (w : World) : World :=
  foldl (fun w e => deliver e w) w es.

(** Number of reconnect timers scheduled so far. *)
Definition is_reconnect (e : Effect) : bool :=
  match e with
  | SetTimer _ {| task := Reconnect |} => true
  | _ => false
  end.

Definition reconnects_scheduled (w : World) : nat :=
  length (List.filter is_reconnect (effects w)).

Definition is_io (e : Effect) : bool :=
  match e with Io _ => true | _ => false end.

(** Number of transports opened so far. *)
Definition transports_opened (w : World) : nat :=
  length (List.filter is_io (effects w)).

(** The event is a 'connect': a call of [connect()] succeeds through it. *)
Definition is_open (e : Event) : bool :=
  match e with TransportOpen _ => true | _ => false end.

(** The event closes a connected socket for a reason other than the
    deliberate local disconnect. *)
Definition unexpected_close (e : Event) (w : World) : bool :=
  match e with
  | TransportClose t reason =>
      match sockets w !! t with
      | Some s => connected s && negb (String.eqb reason "io client disconnect")
      | None => false
      end
  | _ => false
  end.

(** Number of unexpected closes while [es] runs from [w]. *)
Fixpoint unexpected_closes (es : list Event) (w : World) : nat :=
  match es with
  | [] => 0
  | e :: es =>
      (if unexpected_close e w then 1 else 0)
      + unexpected_closes es (deliver e w)
  end.

Definition is_feed (tm : Timer) : bool :=
  match task tm with TestFeed _ _ _ => true | _ => false end.

(** [locationIndex++] in the callback behind handle [id]. *)
Definition advance (id : nat) (w : World) : World :=
  match timers w !! id with
  | Some {| delay := d; repeat := r; task := TestFeed ride sel i |} =>
      {| service := service w; sockets := sockets w; promises := promises w;
         timers := <[id := {| delay := d; repeat := r;
                              task := TestFeed ride sel (S i) |}]> (timers w);
         nextTimer := nextTimer w; effects := effects w |}
  | _ => w
  end.

(** Handles are positive and below the next one to be handed out. *)
Definition timers_wf (w : World) : Prop :=
  0 < nextTimer w
  /\ forall k tm, timers w !! k = Some tm -> 0 < k < nextTimer w.

(** From [w] to [w'] timers were only removed, or added under fresh
    handles for the socket service. *)
Definition service_timers (w w' : World) : Prop :=
  nextTimer w <= nextTimer w'
  /\ forall k tm,
       timers w' !! k = Some tm ->
       timers w !! k = Some tm
       \/ (nextTimer w <= k < nextTimer w' /\ is_feed tm = false).

End Browser.

(** ** The tracking component *)

Module Employee.
(** Modelled from the spec: the [EmployeeLocation] interface of
    data/trackingData is not among the sources. A roster entry (the marker
    projection of the data model) has the fields the component reads and
    writes. *)
Record t : Type := mk {
  id : string;
  name : string;
  role : string;
  status : string;
  lat : JS.number;
  lng : JS.number;
  color : string;
  lastUpdate : string;
  speed : option JS.number;
  direction : option string;
  battery : option JS.number
}.
End Employee.

Module Tracking.
Import JS Browser.

(** The payload of an [updatePassengers] event, as typed by the parameter
    of [handleLocationUpdate]. Ride and user ids are integers. *)
Record LocationData : Type := {
  lat : value;
  long : option value;
  lng : option value;
  rideId : option Z;
  userId : option Z;
  speed : option number
}.

(** The map behind [mapRef.current], reduced to the point it was last
    panned to. *)
Record GoogleMap : Type := { center : option (number * number) }.

(** The React state and refs of [EmployeeTracking]. *)
Record State : Type := {
  selectedEmployee : option string;
  employees : list Employee.t;
  isModalOpen : bool;
  currentRide : option Ride.t;
  isSocketConnected : bool;
  socketError : option string;
  isTestMode : bool;
  mapRef : option GoogleMap;
  testIntervalRef : option nat
}.

Definition initialState : State := {|
  selectedEmployee := None;
  employees := [];
  isModalOpen := false;
  currentRide := None;
  isSocketConnected := false;
  socketError := None;
  isTestMode := false;
  mapRef := None;
  testIntervalRef := None
|}.

Definition setSelectedEmployee (v : option string) (st : State) : State :=
  {| selectedEmployee := v; employees := employees st;
     isModalOpen := isModalOpen st; currentRide := currentRide st;
     isSocketConnected := isSocketConnected st;
     socketError := socketError st; isTestMode := isTestMode st;
     mapRef := mapRef st; testIntervalRef := testIntervalRef st |}.

Definition setEmployees (f : list Employee.t -> list Employee.t)
  (st : State) : State :=
  {| selectedEmployee := selectedEmployee st; employees := f (employees st);
     isModalOpen := isModalOpen st; currentRide := currentRide st;
     isSocketConnected := isSocketConnected st;
     socketError := socketError st; isTestMode := isTestMode st;
     mapRef := mapRef st; testIntervalRef := testIntervalRef st |}.

Definition setIsModalOpen (v : bool) (st : State) : State :=
  {| selectedEmployee := selectedEmployee st; employees := employees st;
     isModalOpen := v; currentRide := currentRide st;
     isSocketConnected := isSocketConnected st;
     socketError := socketError st; isTestMode := isTestMode st;
     mapRef := mapRef st; testIntervalRef := testIntervalRef st |}.

Definition setCurrentRide (v : option Ride.t) (st : State) : State :=
  {| selectedEmployee := selectedEmployee st; employees := employees st;
     isModalOpen := isModalOpen st; currentRide := v;
     isSocketConnected := isSocketConnected st;
     socketError := socketError st; isTestMode := isTestMode st;
     mapRef := mapRef st; testIntervalRef := testIntervalRef st |}.

Definition setIsSocketConnected (v : bool) (st : State) : State :=
  {| selectedEmployee := selectedEmployee st; employees := employees st;
     isModalOpen := isModalOpen st; currentRide := currentRide st;
     isSocketConnected := v;
     socketError := socketError st; isTestMode := isTestMode st;
     mapRef := mapRef st; testIntervalRef := testIntervalRef st |}.

Definition setSocketError (v : option string) (st : State) : State :=
  {| selectedEmployee := selectedEmployee st; employees := employees st;
     isModalOpen := isModalOpen st; currentRide := currentRide st;
     isSocketConnected := isSocketConnected st;
     socketError := v; isTestMode := isTestMode st;
     mapRef := mapRef st; testIntervalRef := testIntervalRef st |}.

Definition setIsTestMode (v : bool) (st : State) : State :=
  {| selectedEmployee := selectedEmployee st; employees := employees st;
     isModalOpen := isModalOpen st; currentRide := currentRide st;
     isSocketConnected := isSocketConnected st;
     socketError := socketError st; isTestMode := v;
     mapRef := mapRef st; testIntervalRef := testIntervalRef st |}.

Definition set_mapRef (v : option GoogleMap) (st : State) : State :=
  {| selectedEmployee := selectedEmployee st; employees := employees st;
     isModalOpen := isModalOpen st; currentRide := currentRide st;
     isSocketConnected := isSocketConnected st;
     socketError := socketError st; isTestMode := isTestMode st;
     mapRef := v; testIntervalRef := testIntervalRef st |}.

Definition set_testIntervalRef (v : option nat) (st : State) : State :=
  {| selectedEmployee := selectedEmployee st; employees := employees st;
     isModalOpen := isModalOpen st; currentRide := currentRide st;
     isSocketConnected := isSocketConnected st;
     socketError := socketError st; isTestMode := isTestMode st;
     mapRef := mapRef st; testIntervalRef := v |}.

(** *** Location update normalizer *)

(** [!currentRide || (data.rideId && data.rideId !== currentRide.rideId)] *)
Definition ignored (currentRide : option Ride.t) (data : LocationData)
  : bool :=
  match currentRide with
  | None => true
  | Some ride =>
      match rideId data with
      | Some i => negb (i =? 0)%Z && negb (i =? Ride.rideId ride)%Z
      | None => false
      end
  end.

(** [data.lat === 'lat' || data.long === 'long' || data.lat === 'long'] *)
Definition placeholder (data : LocationData) : bool :=
  eq_literal (Some (lat data)) "lat"
  || eq_literal (long data) "long"
  || eq_literal (Some (lat data)) "long".

(** [const lat = typeof data.lat === 'string' ? parseFloat(data.lat)
                                            : data.lat] *)
Definition resolve_lat (data : LocationData) : number :=
  match lat data with
  | VStr s => parseFloat s
  | VNum n => n
  end.

(** [a || k] where [a] is an absent or numeric field. *)
Definition or_else (a : option value) (k : number) : number :=
  match a with
  | Some (VNum n) => if truthy n then n else k
  | _ => k
  end.

(** [const lng = typeof data.long === 'string' ? parseFloat(data.long) :
                 typeof data.lng === 'string' ? parseFloat(data.lng) :
                 (data.long || data.lng || 0)] *)
Definition resolve_lng (data : LocationData) : number :=
  match long data with
  | Some (VStr s) => parseFloat s
  | _ =>
      match lng data with
      | Some (VStr s) => parseFloat s
      | _ => or_else (long data) (or_else (lng data) zero)
      end
  end.

(** [isNaN(lat) || isNaN(lng) || lat === 0 || lng === 0] *)
Definition invalid (lat lng : number) : bool :=
  isNaN lat || isNaN lng || is_zero lat || is_zero lng.

(** What the handler reports on the console, which tells the four ways
    out of it apart. *)
Inductive Diagnostic : Type :=
| IgnoringUpdate
| PlaceholderCoordinates
| InvalidCoordinates
| UpdatingLocation (lat lng : number).

(** [data.speed || emp.speed] *)
Definition speed_or (a b : option number) : option number :=
  match a with
  | Some n => if truthy n then Some n else b
  | None => b
  end.

Definition moved (now : string) (lat lng : number) (data : LocationData)
  (emp : Employee.t) : Employee.t :=
  Employee.mk (Employee.id emp) (Employee.name emp) (Employee.role emp)
    (Employee.status emp) lat lng (Employee.color emp) now
    (speed_or (speed data) (Employee.speed emp))
    (Employee.direction emp) (Employee.battery emp).

(** [emp.id === selectedEmployee] *)
Definition is_selected (selectedEmployee : option string)
  (emp : Employee.t) : bool :=
  match selectedEmployee with
  | Some s => String.eqb (Employee.id emp) s
  | None => false
  end.

(** [mapRef.current.panTo({ lat, lng })] when a map is attached. *)
Definition panTo (lat lng : number) (st : State) : State :=
  match mapRef st with
  | Some _ => set_mapRef (Some {| center := Some (lat, lng) |}) st
  | None => st
  end.

(** [handleLocationUpdate(data)]. The handler is a closure of one render:
    [currentRide] and [selectedEmployee] are the values it captured, [st]
    is the state its updates apply to, [now] the local time of receipt. *)
Definition handleLocationUpdate (now : string)
  (currentRide : option Ride.t) (selectedEmployee : option string)
  (data : LocationData) (st : State) : Diagnostic * State :=
  if ignored currentRide data then (IgnoringUpdate, st)
  else if placeholder data then (PlaceholderCoordinates, st)
  else
    let lat := resolve_lat data in
    let lng := resolve_lng data in
    if invalid lat lng then (InvalidCoordinates, st)
    else
      let st :=
        setEmployees
          (map (fun emp => if is_selected selectedEmployee emp
                           then moved now lat lng data emp else emp)) st in
      (UpdatingLocation lat lng, panTo lat lng st).

(** The update was dropped: nothing was forwarded to the roster or map. *)
Definition dropped (r : Diagnostic * State) : bool :=
  match fst r with
  | UpdatingLocation _ _ => false
  | _ => true
  end.

(** The same payload with its [rideId] field absent. *)
Definition without_rideId (data : LocationData) : LocationData :=
  {| lat := lat data; long := long data; lng := lng data; rideId := None;
     userId := userId data; speed := speed data |}.

(** The number a present field stands for: strings are parsed. *)
Definition to_number (v : value) : number :=
  match v with
  | VStr s => parseFloat s
  | VNum n => n
  end.

(** The longitude as the specification words it, to compare [resolve_lng]
    with: [long] if present, else [lng], else 0. *)
Definition spec_longitude (data : LocationData) : number :=
  match long data with
  | Some v => to_number v
  | None =>
      match lng data with
      | Some v => to_number v
      | None => zero
      end
  end.

(** *** Ride selection *)

Definition newEmployee (now : string) (rideId : Z) (employeeName : string)
  : Employee.t :=
  Employee.mk (pretty rideId) employeeName "Driver" "Active"
    (of_decimal false 248607 (-4)) (of_decimal false 670011 (-4))
    "bg-blue-500" now (Some (of_Z 0)) None (Some (of_Z 100)).

(** [handleEmployeeSelect(rideId, riderId, employeeName)] *)
Definition handleEmployeeSelect (now : string) (rideId riderId : Z)
  (employeeName : string) (s : State * World) : State * World :=
  let '(st, w) := s in
  let w :=
    match currentRide st with
    | Some ride =>
        if isSocketConnected st
        then leaveRideRoom (Ride.rideId ride) (Ride.riderId ride) w
        else w
    | None => w
    end in
  let st' := setCurrentRide (Some (Ride.mk rideId riderId employeeName)) st in
  let st' := setSelectedEmployee (Some (pretty rideId)) st' in
  let st' := setIsModalOpen false st' in
  let st' :=
    setEmployees
      (fun prevEmployees =>
         match List.find (fun emp => String.eqb (Employee.id emp)
                                       (pretty rideId)) prevEmployees with
         | Some _ => prevEmployees
         | None => prevEmployees ++ [newEmployee now rideId employeeName]
         end) st' in
  if isSocketConnected st
  then (st', joinRideRoom rideId riderId "admin" w)
  else
    (setSocketError
       (Some "Socket disconnected - cannot track in real-time") st', w).

(** *** Synthetic feed (test mode) *)

(** [startTestMode()] *)
Definition startTestMode (s : State * World) : State * World :=
  let '(st, w) := s in
  match currentRide st with
  | None => s
  | Some ride =>
      let st := setIsTestMode true st in
      let '(id, w) :=
        setTimer {| delay := 3000; repeat := true;
                    task := TestFeed ride (selectedEmployee st) 0 |} w in
      (set_testIntervalRef (Some id) st, w)
  end.

(** [if (testIntervalRef.current) { clearInterval(...); ... = null }]:
    a handle is truthy unless it is 0. *)
Definition clearTestInterval (s : State * World) : State * World :=
  let '(st, w) := s in
  match testIntervalRef st with
  | Some (S n) => (set_testIntervalRef None st, clearTimer (S n) w)
  | _ => s
  end.

(** [stopTestMode()] *)
Definition stopTestMode (s : State * World) : State * World :=
  let '(st, w) := clearTestInterval s in
  (setIsTestMode false st, w).

(** [stopTracking()] *)
Definition stopTracking (s : State * World) : State * World :=
  let '(st, w) := s in
  let w :=
    match currentRide st with
    | Some ride =>
        if isSocketConnected st
        then leaveRideRoom (Ride.rideId ride) (Ride.riderId ride) w
        else w
    | None => w
    end in
  let '(st, w) := stopTestMode (st, w) in
  (setSocketError None (setSelectedEmployee None (setCurrentRide None st)),
   w).

(** *** The roster: initial data and simulated live updates *)

Definition directions : list string := ["North"; "South"; "East"; "West"].

(** [Math.floor(r * k) + b] for a value [r] of [Math.random()]. *)
Definition random_int (r : number) (k b : Z) : number :=
  add (floor (mul r (of_Z k))) (of_Z b).

(** The body of [employeeLocations.map(emp => ({...emp, speed, direction,
    battery}))]; [random] gives the values of [Math.random()] in the order
    the object literal asks for them. *)
Definition equipped (random : nat -> number) (emp : Employee.t)
  : Employee.t :=
  Employee.mk (Employee.id emp) (Employee.name emp) (Employee.role emp)
    (Employee.status emp) (Employee.lat emp) (Employee.lng emp)
    (Employee.color emp) (Employee.lastUpdate emp)
    (Some (random_int (random 0) 60 20))
    (at_index directions (floor (mul (random 1) (of_Z 4))))
    (Some (random_int (random 2) 30 70)).

(** The continuation of [import('../data/trackingData')]: the roster is
    replaced by the imported one. [employeeLocations] is data of a module
    that is not among the sources. *)
Definition loadEmployees (random : nat -> number)
  (employeeLocations : list Employee.t) (st : State) : State :=
  setEmployees
    (fun _ => imap (fun j => equipped (fun i => random (3 * j + i)))
                employeeLocations) st.

(** The body of the map in the interval of the 'Simulate real-time updates'
    effect: new time, speed, direction and battery, and a slight movement
    [emp.lat + (Math.random() - 0.5) * 0.001], the same for [lng]. *)
Definition simulated (now : string) (random : nat -> number)
  (emp : Employee.t) : Employee.t :=
  Employee.mk (Employee.id emp) (Employee.name emp) (Employee.role emp)
    (Employee.status emp)
    (add (Employee.lat emp)
       (mul (sub (random 3) (of_decimal false 5 (-1)))
          (of_decimal false 1 (-3))))
    (add (Employee.lng emp)
       (mul (sub (random 4) (of_decimal false 5 (-1)))
          (of_decimal false 1 (-3))))
    (Employee.color emp) now
    (Some (random_int (random 0) 60 20))
    (at_index directions (floor (mul (random 1) (of_Z 4))))
    (Some (random_int (random 2) 30 70)).

(** The callback of that interval. *)
Definition simulateUpdates (now : string) (random : nat -> number)
  (st : State) : State :=
  setEmployees
    (imap (fun j => simulated now (fun i => random (5 * j + i)))) st.

End Tracking.

(** ** The synthetic feed *)

Module Feed.
Import JS Tracking.

(** [karachiLocations] of [startTestMode]. *)
Definition karachiLocations : list (number * number) :=
  [(of_decimal false 248607 (-4), of_decimal false 670011 (-4));
   (of_decimal false 248949 (-4), of_decimal false 670300 (-4));
   (of_decimal false 248411 (-4), of_decimal false 669978 (-4));
   (of_decimal false 248790 (-4), of_decimal false 670400 (-4));
   (of_decimal false 248300 (-4), of_decimal false 670200 (-4));
   (of_decimal false 249100 (-4), of_decimal false 670500 (-4))].

(** [karachiLocations[locationIndex % karachiLocations.length]]; the index
    is always in range. *)
Definition location (locationIndex : nat) : number * number :=
  nth (locationIndex mod length karachiLocations) karachiLocations (NaN, NaN).

(** [mockData] of the interval callback. [toString] stands for
    [Number.prototype.toString]. *)
Definition mockData (toString : number -> string) (currentRide : Ride.t)
  (location : number * number) : LocationData :=
  {| lat := VStr (toString (fst location));
     long := Some (VStr (toString (snd location)));
     lng := None;
     rideId := Some (Ride.rideId currentRide);
     userId := Some (Ride.riderId currentRide);
     speed := None |}.

(** One run of the interval callback of [startTestMode]: it is closed over
    the [currentRide] of the render that started the feed and over that
    render's [handleLocationUpdate], and owns the counter [locationIndex].
    Returns the counter after the tick and what the handler did. *)
Definition tick (toString : number -> string) (now : string)
  (currentRide : Ride.t) (selectedEmployee : option string)
  (locationIndex : nat) (st : State) : nat * (Diagnostic * State) :=
  let location := location locationIndex in
  (S locationIndex,
   handleLocationUpdate now (Some currentRide) selectedEmployee
     (mockData toString currentRide location) st).

(** [n] ticks in a row from counter [locationIndex]: what the handler
    reported at each, then the counter and the state at the end. *)
Fixpoint ticks (toString : number -> string) (now : string)
  (currentRide : Ride.t) (selectedEmployee : option string)
  (n locationIndex : nat) (st : State) : list Diagnostic * (nat * State) :=
  match n with
  | O => ([], (locationIndex, st))
  | S n =>
      let '(i, (d, st)) :=
        tick toString now currentRide selectedEmployee locationIndex st in
      let '(ds, r) :=
        ticks toString now currentRide selectedEmployee n i st in
      (d :: ds, r)
  end.

(** The decimal texts of the coordinates of [karachiLocations], as
    [toString] prints them; any other number prints as the empty string. *)
Definition table_toString (x : number) : string :=
  match x with
  | S754_finite false m e =>
      if (e =? -48)%Z then
        (if (m =? 6997664953510606)%positive then "24.8607"
         else if (m =? 7007291397714110)%positive then "24.8949"
         else if (m =? 6992148043967077)%positive then "24.8411"
         else if (m =? 7002815945584411)%positive then "24.879"
         else if (m =? 6989023671725588)%positive then "24.83"
         else if (m =? 7011541669862441)%positive then "24.91"
         else "")
      else if (e =? -46)%Z then
        (if (m =? 4714783265522083)%positive then "67.0011"
         else if (m =? 4716816922228818)%positive then "67.03"
         else if (m =? 4714551048666297)%positive then "66.9978"
         else if (m =? 4717520609670595)%positive then "67.04"
         else if (m =? 4716113234787041)%positive then "67.02"
         else if (m =? 4718224297112371)%positive then "67.05"
         else "")
      else ""
  | _ => ""
  end.

End Feed.

(** ** The mounted view as a transition system *)

Module App.
Import JS Browser Tracking.

(** The component state, [None] once the view is unmounted, and the
    browser world it runs in. *)
Record t : Type := { view : option State; world : World }.

(** What the browser supplies while one step runs: the text of
    [new Date().toLocaleTimeString()] and the successive values of
    [Math.random()]. *)
Record Moment : Type := { clock : string; random : nat -> number }.

(** What can happen to the view: the controls it renders, the continuation
    of [await socketService.connect()], the socket events it listens to,
    the events of the environment, unmounting and the continuation of the
    import of the roster. *)
Inductive Action : Type :=
| EnableTestMode
| StopTestMode
| StopTracking
| TrackRide
| CloseModal
| SelectRide (rideId riderId : Z) (employeeName : string)
| MarkerClick
| ConnectResolved
| ConnectRejected
| RoomAdded
| UpdatePassengers (data : LocationData)
| RoomLeft
| SocketError (message : option string)
| Environment (e : Event)
| Unmount
| RosterLoaded (employeeLocations : list Employee.t).

(** Mounting runs the effects in order: [initializeSocket()] calls
    [connect()], the roster is requested with [import(...)], and the
    interval of the simulated live updates is started ([isLiveTracking] is
    always true). *)
Definition connecting : World := snd (connect Browser.initial).

Definition rosterImport : nat := fst (new_promise connecting).

Definition live : Timer :=
  {| delay := 3000; repeat := true; task := LiveTracking |}.

Definition liveInterval : nat :=
  fst (setTimer live (snd (new_promise connecting))).

Definition mount : t :=
  {| view := Some initialState;
     world := snd (setTimer live (snd (new_promise connecting))) |}.

(** A string state is truthy unless it is null or empty. *)
Definition truthy_string (s : option string) : bool :=
  match s with
  | Some EmptyString | None => false
  | Some _ => true
  end.

(** Whether the control or continuation is available, from the JSX
    conditions: the test mode controls sit under [currentRide &&], the
    Enable button under [!isTestMode && currentRide], the Stop button under
    [isTestMode]; Stop Tracking under [selectedEmployee], Track Ride under
    its negation with [disabled={!isSocketConnected}]; the modal under
    [isModalOpen]; a marker exists only for the selected employee. *)
Definition enabled (a : Action) (st : State) (w : World) : bool :=
  match a with
  | EnableTestMode =>
      match currentRide st with
      | Some _ => negb (isTestMode st)
      | None => false
      end
  | StopTestMode =>
      match currentRide st with
      | Some _ => isTestMode st
      | None => false
      end
  | StopTracking => truthy_string (selectedEmployee st)
  | TrackRide =>
      negb (truthy_string (selectedEmployee st)) && isSocketConnected st
  | CloseModal | SelectRide _ _ _ => isModalOpen st
  | MarkerClick =>
      existsb (is_selected (selectedEmployee st)) (employees st)
  | ConnectResolved =>
      match promises w !! 0%nat with Some Resolved => true | _ => false end
  | ConnectRejected =>
      match promises w !! 0%nat with
      | Some (Rejected _) => true
      | _ => false
      end
  | RoomAdded | UpdatePassengers _ | RoomLeft | SocketError _ =>
      isSocketConnected st
  | Environment _ | Unmount => true
  | RosterLoaded _ =>
      match promises w !! rosterImport with
      | Some Pending => true
      | _ => false
      end
  end.

(** The cleanups of the effects, in order: [disconnect()],
    [setIsSocketConnected(false)], [stopTestMode()], then
    [if (testIntervalRef.current) clearInterval(testIntervalRef.current)],
    then [clearInterval(interval)] of the simulated live updates. *)
Definition unmount (st : State) (w : World) : World :=
  let '(st, w) := stopTestMode (setIsSocketConnected false st, disconnect w) in
  let w :=
    match testIntervalRef st with
    | Some (S n) => clearTimer (S n) w
    | _ => w
    end in
  clearTimer liveInterval w.

(** What the callback of an interval of the component does to the view:
    the test feed hands the next entry of its table to the
    [handleLocationUpdate] it is closed over, the live-tracking interval
    redraws every roster entry. *)
Definition fire (now : Moment) (tm : Timer) (st : State) : State :=
  match task tm with
  | TestFeed currentRide selectedEmployee locationIndex =>
      snd (snd (Feed.tick Feed.table_toString (clock now) currentRide
                  selectedEmployee locationIndex st))
  | LiveTracking => simulateUpdates (clock now) (random now) st
  | _ => st
  end.

(** An event of the environment while the view is mounted. *)
Definition environment (now : Moment) (e : Event) (st : State) (w : World)
  : t :=
  match e with
  | TimerFire id =>
      match timers w !! id with
      | Some tm =>
          {| view := Some (fire now tm st); world := advance id (deliver e w) |}
      | None => {| view := Some st; world := deliver e w |}
      end
  | _ => {| view := Some st; world := deliver e w |}
  end.

(** The socket listeners are set up once, by the first render: the
    [handleLocationUpdate] they call is closed over that render's
    [currentRide] and [selectedEmployee]. *)
Definition act (now : Moment) (a : Action) (st : State) (w : World) : t :=
  let keep st w := {| view := Some st; world := w |} in
  let both s := {| view := Some (fst s); world := snd s |} in
  match a with
  | EnableTestMode => both (startTestMode (st, w))
  | StopTestMode => both (stopTestMode (st, w))
  | StopTracking => both (stopTracking (st, w))
  | TrackRide => keep (setIsModalOpen true st) w
  | CloseModal => keep (setIsModalOpen false st) w
  | SelectRide rideId riderId employeeName =>
      both (handleEmployeeSelect (clock now) rideId riderId employeeName
              (st, w))
  | MarkerClick => keep (setSelectedEmployee None st) w
  | ConnectResolved =>
      keep (setSocketError None (setIsSocketConnected true st)) w
  | ConnectRejected =>
      keep (setIsSocketConnected false
              (setSocketError
                 (Some "Failed to connect to tracking server") st)) w
  | RoomAdded => keep (setSocketError None st) w
  | UpdatePassengers data =>
      keep (snd (handleLocationUpdate (clock now) (currentRide initialState)
                   (selectedEmployee initialState) data st)) w
  | RoomLeft => keep (setCurrentRide None st) w
  | SocketError message =>
      keep (setSocketError
              (Some (match message with
                     | Some (String c m) => String c m
                     | _ => "Socket error occurred"
                     end)) st) w
  | Environment e => environment now e st w
  | Unmount => {| view := None; world := unmount st w |}
  | RosterLoaded employeeLocations =>
      keep (loadEmployees (random now) employeeLocations st)
        (resolve rosterImport w)
  end.

(** One step; an action that is not available changes nothing, and after
    unmounting only the environment acts. *)
Definition step (now : Moment) (a : Action) (x : t) : t :=
  match view x with
  | Some st =>
      if enabled a st (world x) then act now a st (world x) else x
  | None =>
      match a with
      | Environment e => {| view := None; world := deliver e (world x) |}
      | _ => x
      end
  end.

(** The states the view can be in: any sequence of steps after mounting,
    each at its own local time. *)
Inductive Reachable : t -> Prop :=
| reach_mount : Reachable mount
| reach_step now a x : Reachable x -> Reachable (step now a x).

Definition after (now : Moment) (actions : list Action) : t :=
  foldl (fun x a => step now a x) mount actions.

(** While test mode is off no interval handle is kept, a kept handle is
    truthy, every feed timer in the table is the one the ref points to, and
    an unmounted view has none. *)
Definition feed_inv (x : t) : Prop :=
  timers_wf (world x)
  /\ match view x with
     | Some st =>
         (forall k tm, timers (world x) !! k = Some tm -> is_feed tm = true ->
                       testIntervalRef st = Some k)
         /\ (isTestMode st = false -> testIntervalRef st = None)
         /\ testIntervalRef st <> Some 0
     | None =>
         forall k tm, timers (world x) !! k = Some tm -> is_feed tm = false
     end.

End App.

(** ** Concrete payloads, rides and runs *)

Module Examples.
Import JS Browser Tracking.

Definition ride8 : Ride.t := Ride.mk 8 7 "John Doe".

Definition now : string := "10:15:00 AM".

(** A moment at which [Math.random()] keeps returning 0.5. *)
Definition moment : App.Moment :=
  {| App.clock := now; App.random := fun _ => of_decimal false 5 (-1) |}.

(** The view while ride 8 is tracked, its marker already on the roster. *)
Definition tracking8 : State := {|
  selectedEmployee := Some "8";
  employees := [newEmployee "10:00:00 AM" 8 "John Doe"];
  isModalOpen := false;
  currentRide := Some ride8;
  isSocketConnected := true;
  socketError := None;
  isTestMode := false;
  mapRef := None;
  testIntervalRef := None
|}.

Definition payload (lat : value) (long lng : option value)
  (rideId : option Z) : LocationData :=
  {| lat := lat; long := long; lng := lng; rideId := rideId;
     userId := None; speed := None |}.

(** [{lat: "24.8607", long: "67.0011", rideId: 8}] *)
Definition karachi : LocationData :=
  payload (VStr "24.8607") (Some (VStr "67.0011")) None (Some 8%Z).

(** [{lat: "0", long: "67.0011"}] *)
Definition zero_latitude : LocationData :=
  payload (VStr "0") (Some (VStr "67.0011")) None None.

(** [{lat: "24.8607", long: "67.0011", rideId: 0}] *)
Definition ride_zero : LocationData :=
  payload (VStr "24.8607") (Some (VStr "67.0011")) None (Some 0%Z).

(** [{lat: "24.86", long: "67.00", rideId: 99}] *)
Definition other_ride : LocationData :=
  payload (VStr "24.86") (Some (VStr "67.00")) None (Some 99%Z).

(** [{lat: "lat", long: "long"}] *)
Definition placeholders : LocationData :=
  payload (VStr "lat") (Some (VStr "long")) None None.

(** [{lat: "0", long: "0"}] *)
Definition zero_zero : LocationData :=
  payload (VStr "0") (Some (VStr "0")) None None.

(** [{lat: "24.8607", long: 67.0011, lng: "66.5"}] *)
Definition mixed_longitude : LocationData :=
  payload (VStr "24.8607") (Some (VNum (of_decimal false 670011 (-4))))
    (Some (VStr "66.5")) None.

(** [{lat: "24.8607", long: 0, lng: 67.0011}] *)
Definition zero_long : LocationData :=
  payload (VStr "24.8607") (Some (VNum (of_Z 0)))
    (Some (VNum (of_decimal false 670011 (-4)))) None.

(** [{lat: "\u00a024.8607", long: "67.0011"}]: a no-break space before the
    latitude. *)
Definition padded_latitude : LocationData :=
  payload
    (VStr (String (ascii_of_nat 194) (String (ascii_of_nat 160) "24.8607")))
    (Some (VStr "67.0011")) None None.

(** [{lat: "24.8607", long: "67.0011", lng: s}] *)
Definition shadowed_lng (s : string) : LocationData :=
  payload (VStr "24.8607") (Some (VStr "67.0011")) (Some (VStr s)) None.

(** The service after [connect()] and the 'connect' event of its
    transport. *)
Definition connected_world : World :=
  deliver (TransportOpen 0) (snd (connect Browser.initial)).

(** One more transport connected next to those that already are: the
    current one closes unexpectedly, the reconnect timer [k] opens
    transport [t], and the closed transport [t - 1] comes back. *)
Definition one_more (t k : nat) : list Event :=
  [TransportClose (t - 1) "transport close"; TimerFire k;
   TransportOpen t; TransportOpen (t - 1)].

(** Six transports connected at once, the attempt counter at 0. *)
Definition six_connected : World :=
  run (one_more 1 2 ++ one_more 2 4 ++ one_more 3 6 ++ one_more 4 8
       ++ one_more 5 10) connected_world.

(** Transport [t] closes unexpectedly and re-establishes its connection by
    itself, [n] times over. *)
Fixpoint flaps (n t : nat) : list Event :=
  match n with
  | O => []
  | S n => TransportClose t "transport close" :: TransportOpen t :: flaps n t
  end.

(** Two transports connected, the current one being transport 1, and the
    replaced transport 0 closes unexpectedly. *)
Definition stale_close : World :=
  deliver (TransportClose 0 "transport close")
    (run (one_more 1 2) connected_world).

Definition closes (ts : list nat) : list Event :=
  map (fun t => TransportClose t "ping timeout") ts.

(** An unexpected close with the reconnect timer pending, then a deliberate
    [disconnect()]. *)
Definition closed_then_disconnected : World :=
  disconnect (deliver (TransportClose 0 "transport close") connected_world).

(** The view tracking ride 8 with the test feed running, in a connected
    world. *)
Definition feeding : State * World :=
  startTestMode (tracking8, connected_world).

Definition feed8 : Timer :=
  {| delay := 3000; repeat := true; task := TestFeed ride8 (Some "8") 0 |}.

(** Ride 8 is picked, the marker is clicked to get the Track Ride button
    back, ride 9 is picked, and the picker is opened once more. *)
Definition switched : App.t :=
  App.after moment
    [App.Environment (TransportOpen 0); App.ConnectResolved; App.TrackRide;
     App.SelectRide 8 7 "John Doe"; App.MarkerClick; App.TrackRide;
     App.SelectRide 9 4 "Jane Roe"; App.MarkerClick; App.TrackRide].

(** The transport opens, the view learns it, ride 8 is picked in the modal
    and the test feed is switched on. *)
Definition running : list App.Action :=
  [App.Environment (TransportOpen 0); App.ConnectResolved; App.TrackRide;
   App.SelectRide 8 7 "John Doe"; App.EnableTestMode].

End Examples.

(** ** The map and the ride picker *)

Module MapView.
Import JS Tracking.

(** [employeesToShow] of [MapComponent]: markers are drawn for the selected
    employee only. *)
Definition employeesToShow (selectedEmployee : option string)
  (employees : list Employee.t) : list Employee.t :=
  if App.truthy_string selectedEmployee
  then List.filter (is_selected selectedEmployee) employees
  else [].

(** The position of the marker of an employee. *)
Definition position (employee : Employee.t) : number * number :=
  (Employee.lat employee, Employee.lng employee).

(** The click listener of a marker:
    [onEmployeeSelect(selectedEmployee === employee.id ? null : employee.id)] *)
Definition markerClick (selectedEmployee : option string)
  (employee : Employee.t) : option string :=
  if is_selected selectedEmployee employee then None
  else Some (Employee.id employee).

End MapView.

Module Modal.
Import JS Browser Tracking.

Inductive Role : Type := Driver | Passenger.
Inductive Status : Type := Active | STARTED.

(** [ActiveRide], the fields the modal reads. *)
Record ActiveRide : Type := {
  id : Z;
  riderId : option Z;
  creatorId : option Z;
  driverName : string;
  passengerName : option string;
  role : Role;
  status : Status;
  currentTime : string;
  speed : number;
  batteryLevel : number
}.

(** An entry of the list the modal displays. *)
Record Row : Type := {
  row_id : string;
  row_name : string;
  row_role : string;
  row_status : string;
  row_lastUpdate : string;
  row_speed : number;
  row_battery : number;
  row_rideId : Z;
  row_riderId : Z
}.

Definition role_text (r : Role) : string :=
  match r with Driver => "Driver" | Passenger => "Passenger" end.

Definition status_text (s : Status) : string :=
  match s with Active => "Active" | STARTED => "STARTED" end.

(** [a || b] on optional ids: 0 and an absent id are falsy. *)
Definition id_or (a : option Z) (b : Z) : Z :=
  match a with
  | Some i => if (i =? 0)%Z then b else i
  | None => b
  end.

(** The body of [activeRides.map(ride => ...)]. *)
Definition toRow (ride : ActiveRide) : Row :=
  {| row_id := pretty (id ride);
     row_name :=
       match role ride with
       | Driver => driverName ride
       | Passenger =>
           match passengerName ride with
           | Some (String c s) => String c s
           | _ => "Unknown"
           end
       end;
     row_role := role_text (role ride);
     row_status :=
       match status ride with
       | STARTED => "Active"
       | s => status_text s
       end;
     row_lastUpdate := currentTime ride;
     row_speed := speed ride;
     row_battery := batteryLevel ride;
     row_rideId := id ride;
     row_riderId := id_or (riderId ride) (id_or (creatorId ride) (id ride)) |}.

(** [toLowerCase] on the ASCII letters; other bytes are kept. *)
Definition lower (c : ascii) : ascii :=
  let n := Ascii.N_of_ascii c in
  if ((65 <=? n) && (n <=? 90))%N then Ascii.ascii_of_N (n + 32) else c.

Fixpoint toLowerCase (s : string) : string :=
  match s with
  | String c r => String (lower c) (toLowerCase r)
  | EmptyString => EmptyString
  end.

(** [s.includes(sub)] *)
Fixpoint includes (s sub : string) : bool :=
  String.prefix sub s
  || match s with
     | String _ r => includes r sub
     | EmptyString => false
     end.

(** The predicate of [employees.filter(emp => ...)]. *)
Definition matches (searchTerm : string) (emp : Row) : bool :=
  includes (toLowerCase (row_name emp)) (toLowerCase searchTerm)
  || includes (toLowerCase (row_role emp)) (toLowerCase searchTerm)
  || includes (toLowerCase (row_status emp)) (toLowerCase searchTerm).

(** [filteredEmployees] *)
Definition filteredEmployees (searchTerm : string)
  (activeRides : list ActiveRide) : list Row :=
  List.filter (matches searchTerm) (map toRow activeRides).

(** The click on an entry:
    [onEmployeeSelect(employee.rideId, employee.riderId, employee.name)],
    with [handleEmployeeSelect] of the tracking view as the callback. *)
Definition select (now : string) (employee : Row) (s : State * World)
  : State * World :=
  handleEmployeeSelect now (row_rideId employee) (row_riderId employee)
    (row_name employee) s.

End Modal.

Module Api.

(** [API_CONFIG.HEADERS] *)
Definition HEADERS : gmap string string :=
  <["Content-Type" := "application/json"]>
    (<["Accept" := "application/json"]> ∅).

(** [getAuthHeaders(token)]: an absent or empty token is falsy. *)
Definition getAuthHeaders (token : option string) : gmap string string :=
  match token with
  | Some (String c t) =>
      <["Authorization" := String.append "Bearer " (String c t)]> HEADERS
  | _ => HEADERS
  end.

(** [buildApiUrl(endpoint)], with [VITE_API_BASE_URL] as [env]. *)
Definition BASE_URL (env : option string) : string :=
  match env with
  | Some (String c u) => String c u
  | _ => "http://62.72.24.4:3000/api"
  end.

Definition buildApiUrl (env : option string) (endpoint : string) : string :=
  String.append (BASE_URL env) endpoint.

End Api.

(** ** More concrete inputs *)

Module Scenarios.
Import JS Browser Tracking.

(** A passenger ride without rider id, created by user 12, shown as STARTED. *)
Definition ride21 : Modal.ActiveRide :=
  {| Modal.id := 21; Modal.riderId := None; Modal.creatorId := Some 12%Z;
     Modal.driverName := "Ayesha Khan"; Modal.passengerName := None;
     Modal.role := Modal.Passenger; Modal.status := Modal.STARTED;
     Modal.currentTime := "10:14:00 AM"; Modal.speed := of_Z 40;
     Modal.batteryLevel := of_Z 90 |}.

(** The view connected, nothing tracked, the picker open. *)
Definition picking : State :=
  setIsModalOpen true (setIsSocketConnected true initialState).

(** The frames sent so far, in order. *)
Definition frames (w : World) : list (nat * Frame) :=
  omap (fun e => match e with Emit t f => Some (t, f) | _ => None end)
    (effects w).

Definition is_admin_join (tf : nat * Frame) : Prop :=
  match snd tf with
  | JoinRideRoom _ _ role => role = "admin"
  | LeaveRideRoom _ _ => True
  end.

(** Every promise settled in [w] has the same outcome in [w']. *)
Definition keeps_settled (w w' : World) : Prop :=
  forall p r,
    promises w !! p = Some r -> r <> Pending -> promises w' !! p = Some r.

End Scenarios.

(** * Properties *)

(** ** Location update normalizer *)

Section Normalizer.
Import JS Tracking.

Variable now : string.
Variable selected : option string.

Lemma handleLocationUpdate_ignored cur data st :
  ignored cur data = true ->
  handleLocationUpdate now cur selected data st = (IgnoringUpdate, st).
Proof. intros H. unfold handleLocationUpdate. now rewrite H. Qed.

Lemma handleLocationUpdate_placeholder cur data st :
  ignored cur data = false -> placeholder data = true ->
  handleLocationUpdate now cur selected data st
  = (PlaceholderCoordinates, st).
Proof. intros H1 H2. unfold handleLocationUpdate. now rewrite H1, H2. Qed.

Lemma handleLocationUpdate_invalid cur data st :
  ignored cur data = false -> placeholder data = false ->
  invalid (resolve_lat data) (resolve_lng data) = true ->
  handleLocationUpdate now cur selected data st = (InvalidCoordinates, st).
Proof.
  intros H1 H2 H3. unfold handleLocationUpdate. now rewrite H1, H2, H3.
Qed.

Lemma handleLocationUpdate_accepted cur data st :
  ignored cur data = false -> placeholder data = false ->
  invalid (resolve_lat data) (resolve_lng data) = false ->
  fst (handleLocationUpdate now cur selected data st)
  = UpdatingLocation (resolve_lat data) (resolve_lng data).
Proof.
  intros H1 H2 H3. unfold handleLocationUpdate. now rewrite H1, H2, H3.
Qed.

(** The three checks decide between dropping and forwarding. *)
Lemma dropped_spec cur data st :
  dropped (handleLocationUpdate now cur selected data st)
  = ignored cur data || placeholder data
    || invalid (resolve_lat data) (resolve_lng data).
Proof.
  unfold dropped, handleLocationUpdate.
  destruct (ignored cur data); [reflexivity|].
  destruct (placeholder data); [reflexivity|].
  destruct (invalid _ _); reflexivity.
Qed.

(** A dropped update reaches neither the roster nor the map. *)
Lemma dropped_unchanged cur data st :
  dropped (handleLocationUpdate now cur selected data st) = true ->
  snd (handleLocationUpdate now cur selected data st) = st.
Proof.
  unfold dropped, handleLocationUpdate.
  destruct (ignored cur data); [reflexivity|].
  destruct (placeholder data); [reflexivity|].
  destruct (invalid _ _); [reflexivity|]. discriminate.
Qed.

Lemma invalid_finite lat lng :
  is_finite lat = true -> is_finite lng = true ->
  invalid lat lng = is_zero lat || is_zero lng.
Proof. intros H1 H2. destruct lat, lng; try discriminate; reflexivity. Qed.

(** C1, as the code has it: for a payload whose coordinates both resolve
    to finite numbers and which passes the relevance and placeholder
    checks, the update is dropped if and only if at least one of the two
    resolved coordinates is exactly 0. *)
Theorem zero_coordinate_dropped cur data st :
  is_finite (resolve_lat data) = true ->
  is_finite (resolve_lng data) = true ->
  ignored cur data = false ->
  placeholder data = false ->
  dropped (handleLocationUpdate now cur selected data st) = true
  <-> is_zero (resolve_lat data) = true \/ is_zero (resolve_lng data) = true.
Proof.
  intros Hlat Hlng Hrel Hph.
  rewrite dropped_spec, Hrel, Hph, (invalid_finite _ _ Hlat Hlng). simpl.
  apply orb_true_iff.
Qed.

(** C2, as the code has it: with no ride tracked every update is dropped;
    an update whose rideId is non-zero and differs from the tracked ride's
    is dropped; an update without rideId, while a ride is tracked, is
    dropped exactly when the placeholder or the validity check fails. *)
Theorem relevance_check cur data st :
  (cur = None ->
   handleLocationUpdate now cur selected data st = (IgnoringUpdate, st))
  /\ (forall ride i,
        cur = Some ride -> rideId data = Some i ->
        i <> 0%Z -> i <> Ride.rideId ride ->
        handleLocationUpdate now cur selected data st = (IgnoringUpdate, st))
  /\ (forall ride,
        cur = Some ride -> rideId data = None ->
        dropped (handleLocationUpdate now cur selected data st)
        = placeholder data
          || invalid (resolve_lat data) (resolve_lng data)).
Proof.
  split; [|split].
  - intros ->. now apply handleLocationUpdate_ignored.
  - intros ride i -> Hi Hz Hne. apply handleLocationUpdate_ignored.
    unfold ignored. rewrite Hi.
    apply Z.eqb_neq in Hz, Hne. now rewrite Hz, Hne.
  - intros ride -> Hi. rewrite dropped_spec. unfold ignored. now rewrite Hi.
Qed.

(** C10: a rideId of 0 is falsy, so the mismatch test is skipped: while a
    ride is tracked the update is handled exactly as the same payload
    without rideId, and is forwarded when the placeholder and validity
    checks pass, whatever the tracked ride's id. *)
Theorem zero_rideId_skips_relevance ride data st :
  rideId data = Some 0%Z ->
  ignored (Some ride) data = false
  /\ handleLocationUpdate now (Some ride) selected data st
     = handleLocationUpdate now (Some ride) selected (without_rideId data) st
  /\ dropped (handleLocationUpdate now (Some ride) selected data st)
     = placeholder data || invalid (resolve_lat data) (resolve_lng data).
Proof.
  intros H.
  assert (Hig : ignored (Some ride) data = false)
    by (unfold ignored; now rewrite H).
  split; [exact Hig|split].
  - unfold handleLocationUpdate. rewrite Hig. reflexivity.
  - now rewrite dropped_spec, Hig.
Qed.

(** The code agrees with the specification's precedence on every payload
    whose numeric longitude fields are non-zero numbers and whose numeric
    [long] does not come with a string [lng]. *)
Lemma resolve_lng_spec data :
  (forall n, long data = Some (VNum n) ->
             truthy n = true /\ forall s, lng data <> Some (VStr s)) ->
  (forall n, long data = None -> lng data = Some (VNum n) ->
             truthy n = true) ->
  resolve_lng data = spec_longitude data.
Proof.
  unfold resolve_lng, spec_longitude, or_else. intros Hlong Hlng.
  destruct (long data) as [[s|n]|]; [reflexivity| |].
  - destruct (Hlong n eq_refl) as [Ht Hs]. rewrite Ht.
    destruct (lng data) as [[s|m]|]; [now destruct (Hs s)|reflexivity..].
  - destruct (lng data) as [[s|m]|]; [reflexivity| |reflexivity].
    now rewrite (Hlng m eq_refl eq_refl).
Qed.

(** C5, as the code has it: a string [long] is parsed and used whatever
    [lng] holds; a non-zero numeric [long] is used when [lng] is not a
    string; an absent [long], or a numeric one that is 0 or NaN, gives way
    to [lng] (parsed when a string, used when a non-zero number) and to 0
    when [lng] is absent, 0 or NaN too. A non-zero numeric [long] next to a
    string [lng] is left open. *)
Theorem longitude_precedence data :
  (forall s, long data = Some (VStr s) -> resolve_lng data = parseFloat s)
  /\ (forall n, long data = Some (VNum n) -> truthy n = true ->
                (forall s, lng data <> Some (VStr s)) ->
                resolve_lng data = n)
  /\ ((long data = None
       \/ exists n, long data = Some (VNum n) /\ truthy n = false) ->
      (forall s, lng data = Some (VStr s) -> resolve_lng data = parseFloat s)
      /\ (forall n, lng data = Some (VNum n) -> truthy n = true ->
                    resolve_lng data = n)
      /\ ((lng data = None
           \/ exists n, lng data = Some (VNum n) /\ truthy n = false) ->
          resolve_lng data = zero)).
Proof.
  unfold resolve_lng, or_else. split; [|split].
  - now intros s ->.
  - intros n -> Ht Hs. rewrite Ht.
    destruct (lng data) as [[s|m]|]; [now destruct (Hs s)|reflexivity..].
  - intros Hlong.
    assert (Hl : forall k, match long data with
                           | Some (VNum n) => if truthy n then n else k
                           | _ => k
                           end = k).
    { intros k. destruct Hlong as [->|(n & -> & ->)]; reflexivity. }
    assert (Hns : forall s, long data <> Some (VStr s)).
    { intros s. destruct Hlong as [->|(n & -> & _)]; discriminate. }
    split; [|split].
    + intros s ->. destruct (long data) as [[s'|n]|]; try reflexivity.
      now destruct (Hns s').
    + intros n -> Ht. rewrite Hl, Ht.
      destruct (long data) as [[s'|m]|]; try reflexivity.
      now destruct (Hns s').
    + intros Hlng. rewrite Hl.
      destruct (long data) as [[s'|m]|]; [now destruct (Hns s')|..];
        destruct Hlng as [->|(n & -> & ->)]; reflexivity.
Qed.

(** C6: a payload whose latitude or longitude is a non-numeric token (a
    string that [parseFloat] reads as no number, such as the placeholders
    "lat" and "long") is dropped, and neither the roster nor the map
    changes. The token is the latitude when it sits in [lat], and the
    longitude when it sits in [long], or in [lng] while [long] is not a
    string, which is when the longitude is read from [lng]. *)
Theorem sentinel_dropped cur data st s :
  isNaN (parseFloat s) = true ->
  lat data = VStr s
  \/ long data = Some (VStr s)
  \/ (lng data = Some (VStr s) /\ forall s', long data <> Some (VStr s')) ->
  dropped (handleLocationUpdate now cur selected data st) = true
  /\ snd (handleLocationUpdate now cur selected data st) = st.
Proof.
  intros Hnan Hs.
  assert (Hd : dropped (handleLocationUpdate now cur selected data st) = true).
  { rewrite dropped_spec.
    assert (Hi : invalid (resolve_lat data) (resolve_lng data) = true);
      [|rewrite Hi; now rewrite !orb_true_r].
    unfold invalid, resolve_lat, resolve_lng.
    destruct Hs as [->|[->|[-> Hns]]].
    - now rewrite Hnan.
    - rewrite Hnan. now rewrite orb_true_r.
    - destruct (long data) as [[s'|n]|]; [now destruct (Hns s')|..];
        rewrite Hnan; now rewrite orb_true_r. }
  split; [exact Hd|now apply dropped_unchanged].
Qed.

End Normalizer.

Section NormalizerExamples.
Import JS Tracking Examples.

(** The example scenarios of the normalizer, run on the code. *)
Example accepted_update :
  fst (handleLocationUpdate now (Some ride8) (Some "8") karachi tracking8)
  = UpdatingLocation (of_decimal false 248607 (-4))
      (of_decimal false 670011 (-4)).
Proof. vm_compute. reflexivity. Qed.

Example placeholder_update :
  handleLocationUpdate now (Some ride8) (Some "8") placeholders tracking8
  = (PlaceholderCoordinates, tracking8).
Proof. vm_compute. reflexivity. Qed.

Example zero_zero_update :
  handleLocationUpdate now (Some ride8) (Some "8") zero_zero tracking8
  = (InvalidCoordinates, tracking8).
Proof. vm_compute. reflexivity. Qed.

Example mismatched_update :
  handleLocationUpdate now (Some ride8) (Some "8") other_ride tracking8
  = (IgnoringUpdate, tracking8).
Proof. vm_compute. reflexivity. Qed.

Lemma zero_coordinate_dropped_witness :
  (is_finite (resolve_lat zero_latitude) = true
   /\ is_finite (resolve_lng zero_latitude) = true
   /\ ignored (Some ride8) zero_latitude = false
   /\ placeholder zero_latitude = false)
  /\ dropped (handleLocationUpdate now (Some ride8) (Some "8")
                zero_latitude tracking8) = true.
Proof.
  assert (H : (is_finite (resolve_lat zero_latitude) = true
               /\ is_finite (resolve_lng zero_latitude) = true
               /\ ignored (Some ride8) zero_latitude = false
               /\ placeholder zero_latitude = false))
    by (vm_compute; repeat split).
  split; [exact H|].
  destruct H as (H1 & H2 & H3 & H4).
  apply (zero_coordinate_dropped now (Some "8") (Some ride8) zero_latitude
           tracking8 H1 H2 H3 H4).
  left. vm_compute. reflexivity.
Defined.

(** [{lat: "0", long: "67.0011"}] while ride 8 is tracked: both coordinates
    are finite, only the latitude is 0, the relevance and placeholder
    checks pass, and the update is dropped as invalid. *)
Lemma one_zero_coordinate_dropped :
  is_finite (resolve_lat zero_latitude) = true
  /\ is_finite (resolve_lng zero_latitude) = true
  /\ is_zero (resolve_lat zero_latitude) = true
  /\ is_zero (resolve_lng zero_latitude) = false
  /\ ignored (Some ride8) zero_latitude = false
  /\ placeholder zero_latitude = false
  /\ handleLocationUpdate now (Some ride8) (Some "8") zero_latitude tracking8
     = (InvalidCoordinates, tracking8).
Proof. vm_compute. repeat split. Qed.

Lemma relevance_check_witness :
  handleLocationUpdate now (Some ride8) (Some "8") other_ride tracking8
  = (IgnoringUpdate, tracking8).
Proof.
  refine (proj1 (proj2 (relevance_check now (Some "8") (Some ride8)
                          other_ride tracking8))
            ride8 99%Z eq_refl eq_refl _ _); vm_compute; discriminate.
Defined.

(** [{lat: "24.8607", long: "67.0011", rideId: 0}] while ride 8 is tracked:
    the payload carries a rideId, it differs from 8, and the update is
    forwarded. *)
Lemma zero_rideId_forwarded :
  rideId ride_zero = Some 0%Z
  /\ 0%Z <> Ride.rideId ride8
  /\ dropped (handleLocationUpdate now (Some ride8) (Some "8") ride_zero
                tracking8) = false.
Proof. vm_compute. repeat split. discriminate. Qed.

Lemma zero_rideId_skips_relevance_witness :
  rideId ride_zero = Some 0%Z
  /\ handleLocationUpdate now (Some ride8) (Some "8") ride_zero tracking8
     = handleLocationUpdate now (Some ride8) (Some "8")
         (without_rideId ride_zero) tracking8.
Proof.
  split; [reflexivity|].
  exact (proj1 (proj2 (zero_rideId_skips_relevance now (Some "8") ride8
                         ride_zero tracking8 eq_refl))).
Defined.

Lemma longitude_precedence_witness :
  long karachi = Some (VStr "67.0011")
  /\ resolve_lng karachi = parseFloat "67.0011".
Proof.
  split; [reflexivity|].
  exact (proj1 (longitude_precedence karachi) "67.0011" eq_refl).
Defined.

(** [{lat: "24.8607", long: 0, lng: 67.0011}] while ride 8 is tracked:
    [long] is present and is the number 0, yet the [||] chain passes it over:
    the resolved longitude is the value of [lng], not the 0 that the
    specification's rule selects, and the update is forwarded at it. *)
Lemma zero_long_gives_way_to_lng :
  long zero_long = Some (VNum (of_Z 0))
  /\ lng zero_long = Some (VNum (of_decimal false 670011 (-4)))
  /\ spec_longitude zero_long = of_Z 0
  /\ resolve_lng zero_long = of_decimal false 670011 (-4)
  /\ resolve_lng zero_long <> spec_longitude zero_long
  /\ fst (handleLocationUpdate now (Some ride8) (Some "8") zero_long
            tracking8)
     = UpdatingLocation (of_decimal false 248607 (-4))
         (of_decimal false 670011 (-4)).
Proof. vm_compute. repeat split. discriminate. Qed.

(** The case the precedence above leaves open:
    [{lat: "24.8607", long: 67.0011, lng: "66.5"}], where a numeric [long]
    comes with a string [lng]. The ternary chain tests the type of [lng]
    before it looks at the value of [long], and the parsed [lng] is used. *)
Lemma string_lng_beats_numeric_long :
  long mixed_longitude = Some (VNum (of_decimal false 670011 (-4)))
  /\ lng mixed_longitude = Some (VStr "66.5")
  /\ resolve_lng mixed_longitude = parseFloat "66.5"
  /\ spec_longitude mixed_longitude = of_decimal false 670011 (-4)
  /\ resolve_lng mixed_longitude <> spec_longitude mixed_longitude.
Proof. vm_compute. repeat split. discriminate. Qed.

(** [parseFloat] skips a no-break space like any other white space, so
    ["\u00a024.8607"] is no sentinel: the update is forwarded. *)
Example padded_latitude_accepted :
  fst (handleLocationUpdate now (Some ride8) (Some "8") padded_latitude
         tracking8)
  = UpdatingLocation (of_decimal false 248607 (-4))
      (of_decimal false 670011 (-4)).
Proof. vm_compute. reflexivity. Qed.

Lemma sentinel_dropped_witness :
  (isNaN (parseFloat "lat") = true /\ lat placeholders = VStr "lat")
  /\ dropped (handleLocationUpdate now (Some ride8) (Some "8") placeholders
                tracking8) = true
  /\ snd (handleLocationUpdate now (Some ride8) (Some "8") placeholders
            tracking8) = tracking8.
Proof.
  split; [split; reflexivity|].
  apply (sentinel_dropped now (Some "8") (Some ride8) placeholders tracking8
           "lat"); [reflexivity|left; reflexivity].
Defined.

(** A token that is not the longitude: in
    [{lat: "24.8607", long: "67.0011", lng: "long"}], and the same with
    [lng: "lng"], the longitude is the string [long]; the token sits in an
    [lng] that is never read, and the update is forwarded. *)
Lemma shadowed_lng_placeholder_forwarded :
  lng (shadowed_lng "long") = Some (VStr "long")
  /\ isNaN (parseFloat "long") = true
  /\ dropped (handleLocationUpdate now (Some ride8) (Some "8")
                (shadowed_lng "long") tracking8) = false
  /\ lng (shadowed_lng "lng") = Some (VStr "lng")
  /\ isNaN (parseFloat "lng") = true
  /\ dropped (handleLocationUpdate now (Some ride8) (Some "8")
                (shadowed_lng "lng") tracking8) = false.
Proof. vm_compute. repeat split. Qed.

End NormalizerExamples.

(** ** Connection manager *)

Section ConnectionManager.
Import Browser Examples.

Lemma settle_pending_last l r w :
  promises w = l ++ [Pending] ->
  settle (length l) r w = set_promises (l ++ [r]) w.
Proof.
  intros H. unfold settle. rewrite H, list_lookup_middle by reflexivity.
  f_equal. rewrite insert_app_r_alt by lia.
  now replace (length l - length l) with 0 by lia.
Qed.

(** With the current transport connected, [connect()] only creates a
    promise and resolves it. *)
Lemma connect_connected w :
  socket_connected w = true ->
  connect w
  = (length (promises w), set_promises (promises w ++ [Resolved]) w).
Proof.
  intros H. unfold connect, new_promise.
  change (socket_connected (set_promises (promises w ++ [Pending]) w))
    with (socket_connected w).
  rewrite H. unfold resolve.
  now rewrite (settle_pending_last (promises w)).
Qed.

(** C8: while the current transport is connected, two calls of [connect()]
    in a row return two promises that are both resolved, and open no
    transport: sockets, service fields, timers and effects are as before. *)
Theorem connect_idempotent w :
  socket_connected w = true ->
  let first := connect w in
  let second := connect (snd first) in
  fst first <> fst second
  /\ promises (snd second) !! fst first = Some Resolved
  /\ promises (snd second) !! fst second = Some Resolved
  /\ sockets (snd second) = sockets w
  /\ service (snd second) = service w
  /\ timers (snd second) = timers w
  /\ effects (snd second) = effects w
  /\ transports_opened (snd second) = transports_opened w.
Proof.
  intros H. cbv zeta. rewrite (connect_connected w H). cbn [fst snd].
  rewrite connect_connected by exact H. cbn.
  rewrite length_app. cbn.
  repeat split.
  - lia.
  - rewrite lookup_app_l by (rewrite length_app; cbn; lia).
    now apply list_lookup_middle.
  - apply list_lookup_middle. rewrite length_app. reflexivity.
Qed.

(** A deliberate [disconnect()] neither schedules nor cancels a timer. *)
Lemma disconnect_keeps_timers w :
  timers (disconnect w) = timers w /\ effects (disconnect w) = effects w.
Proof.
  unfold disconnect. destruct (socket (service w)) as [t|]; [|now split].
  unfold socket_disconnect. destruct (sockets w !! t) as [s|] eqn:Hs.
  - unfold destroy, set_connected. rewrite Hs.
    destruct (connected s); cbn.
    + rewrite list_lookup_insert_eq by (now apply lookup_lt_Some in Hs).
      now split.
    + now split.
  - now split.
Qed.

(** [disconnect()] forgets the socket and creates none. *)
Lemma disconnect_socket w :
  socket (service (disconnect w)) = None
  /\ length (sockets (disconnect w)) = length (sockets w)
  /\ promises (disconnect w) = promises w.
Proof.
  unfold disconnect. destruct (socket (service w)) as [t|] eqn:Hsock;
    [|now rewrite Hsock].
  cbn. split; [reflexivity|]. unfold socket_disconnect.
  destruct (sockets w !! t) as [s|] eqn:Hs; [|now split].
  assert (Hd : length (sockets (destroy t w)) = length (sockets w)
               /\ promises (destroy t w) = promises w).
  { unfold destroy. rewrite Hs. cbn. now rewrite length_insert. }
  destruct (connected s); [|exact Hd].
  unfold on_disconnect. cbn.
  unfold set_connected. destruct (sockets (destroy t w) !! t); cbn;
    [now rewrite length_insert|exact Hd].
Qed.

(** C3, on the code: a reconnect timer that is pending when [disconnect()]
    is called is still pending afterwards; when it fires, [connect()] finds
    no socket and opens a new transport, although the service was
    deliberately disconnected. *)
Theorem reconnect_after_disconnect w k :
  timers w !! k
  = Some {| delay := 5000; repeat := false; task := Reconnect |} ->
  socket (service (disconnect w)) = None
  /\ timers (disconnect w) !! k
     = Some {| delay := 5000; repeat := false; task := Reconnect |}
  /\ socket (service (deliver (TimerFire k) (disconnect w)))
     = Some (length (sockets w))
  /\ sockets (deliver (TimerFire k) (disconnect w))
     = sockets (disconnect w)
       ++ [{| connected := false; destroyed := false;
              owner := length (promises w) |}]
  /\ transports_opened (deliver (TimerFire k) (disconnect w))
     = S (transports_opened w).
Proof.
  intros Hk.
  destruct (disconnect_keeps_timers w) as [Ht He].
  destruct (disconnect_socket w) as (Hs & Hlen & Hp).
  split; [exact Hs|]. split; [now rewrite Ht|].
  cbn [deliver]. rewrite Ht, Hk. cbn [repeat task run_task].
  unfold connect, new_promise, socket_connected. cbn. rewrite Hs. cbn.
  rewrite Hlen, Hp. repeat split.
  rewrite He, !List.filter_app, !length_app. cbn.
  unfold transports_opened. lia.
Qed.

Lemma reconnects_scheduled_app l w w' :
  effects w' = effects w ++ l ->
  reconnects_scheduled w'
  = reconnects_scheduled w
    + length (List.filter is_reconnect l).
Proof.
  intros H. unfold reconnects_scheduled.
  now rewrite H, List.filter_app, length_app.
Qed.

(** The 'disconnect' handler below the bound: one more attempt counted, one
    reconnect timer of 5000 ms under the next handle. *)
Lemma on_disconnect_retry reason w :
  reason <> "io client disconnect" ->
  reconnectAttempts (service w) < maxReconnectAttempts ->
  on_disconnect reason w
  = snd (setTimer {| delay := 5000; repeat := false; task := Reconnect |}
           (set_reconnectAttempts (S (reconnectAttempts (service w)))
              (set_isConnected false w))).
Proof.
  intros Hr Hlt. unfold on_disconnect. cbn [set_isConnected set_service
    service reconnectAttempts].
  apply String.eqb_neq in Hr. rewrite Hr.
  apply Nat.ltb_lt in Hlt. now rewrite Hlt.
Qed.

(** The 'disconnect' handler at the bound, or on a deliberate close: only
    the connected flag is lowered. *)
Lemma on_disconnect_stop reason w :
  reason = "io client disconnect"
  \/ maxReconnectAttempts <= reconnectAttempts (service w) ->
  on_disconnect reason w = set_isConnected false w.
Proof.
  intros H. unfold on_disconnect. cbn [set_isConnected set_service
    service reconnectAttempts].
  destruct H as [->|H]; [reflexivity|].
  apply Nat.ltb_ge in H. rewrite H. now rewrite andb_false_r.
Qed.

Lemma settle_service p r w : service (settle p r w) = service w.
Proof. unfold settle. now destruct (promises w !! p) as [[]|]. Qed.

Lemma settle_effects p r w : effects (settle p r w) = effects w.
Proof. unfold settle. now destruct (promises w !! p) as [[]|]. Qed.

Lemma settle_timers p r w : timers (settle p r w) = timers w.
Proof. unfold settle. now destruct (promises w !! p) as [[]|]. Qed.

Lemma settle_nextTimer p r w : nextTimer (settle p r w) = nextTimer w.
Proof. unfold settle. now destruct (promises w !! p) as [[]|]. Qed.

Lemma set_connected_service t b w : service (set_connected t b w) = service w.
Proof. unfold set_connected. now destruct (sockets w !! t). Qed.

Lemma set_connected_effects t b w : effects (set_connected t b w) = effects w.
Proof. unfold set_connected. now destruct (sockets w !! t). Qed.

Lemma set_connected_timers t b w : timers (set_connected t b w) = timers w.
Proof. unfold set_connected. now destruct (sockets w !! t). Qed.

Lemma set_connected_nextTimer t b w :
  nextTimer (set_connected t b w) = nextTimer w.
Proof. unfold set_connected. now destruct (sockets w !! t). Qed.

(** [connect()] leaves the attempt counter alone and schedules no
    reconnect. *)
Lemma connect_attempts w :
  reconnectAttempts (service (snd (connect w))) = reconnectAttempts (service w)
  /\ reconnects_scheduled (snd (connect w)) = reconnects_scheduled w.
Proof.
  unfold connect, new_promise.
  destruct (socket_connected _); cbn [fst snd].
  - unfold resolve, reconnects_scheduled.
    now rewrite settle_service, settle_effects.
  - unfold io, setTimer. cbn [fst snd]. split; [reflexivity|].
    erewrite (reconnects_scheduled_app [Io _; SetTimer _ _]);
      [|cbn; now rewrite <- app_assoc].
    cbn. lia.
Qed.

(** What one event other than a 'connect' does to the attempt counter and
    to the number of reconnects scheduled. *)
Lemma deliver_attempts e w :
  is_open e = false ->
  let retry := unexpected_close e w
               && (reconnectAttempts (service w) <? maxReconnectAttempts) in
  reconnectAttempts (service (deliver e w))
  = reconnectAttempts (service w) + (if retry then 1 else 0)
  /\ reconnects_scheduled (deliver e w)
     = reconnects_scheduled w + (if retry then 1 else 0).
Proof.
  intros Hopen. cbv zeta.
  destruct (unexpected_close e w) eqn:Hu; cbn [andb].
  - destruct e as [t|t err|t reason|id]; try discriminate.
    cbn [unexpected_close] in Hu. cbn [deliver].
    destruct (sockets w !! t) as [s|] eqn:Hs; [|discriminate].
    apply andb_true_iff in Hu as [-> Hr].
    apply negb_true_iff, String.eqb_neq in Hr.
    destruct (reconnectAttempts (service w) <? maxReconnectAttempts) eqn:Hlt.
    + apply Nat.ltb_lt in Hlt.
      rewrite on_disconnect_retry;
        [|exact Hr|now rewrite set_connected_service].
      unfold setTimer. cbn [snd].
      erewrite (reconnects_scheduled_app [SetTimer _ _] w);
        [|cbn; now rewrite set_connected_effects].
      cbn. rewrite set_connected_service. lia.
    + apply Nat.ltb_ge in Hlt.
      rewrite on_disconnect_stop
        by (right; now rewrite set_connected_service).
      unfold reconnects_scheduled. cbn.
      rewrite set_connected_service, set_connected_effects. lia.
  - rewrite !Nat.add_0_r.
    destruct e as [t|t err|t reason|id]; [discriminate|..]; cbn [deliver].
    + destruct (sockets w !! t) as [s|]; [|now split].
      destruct (connected s || destroyed s); [now split|].
      unfold on_connect_error, reject, reconnects_scheduled.
      now rewrite settle_service, settle_effects.
    + cbn [unexpected_close] in Hu.
      destruct (sockets w !! t) as [s|]; [|now split].
      destruct (connected s); [|now split].
      cbn in Hu. apply negb_false_iff, String.eqb_eq in Hu.
      rewrite on_disconnect_stop by now left.
      unfold reconnects_scheduled. cbn.
      now rewrite set_connected_service, set_connected_effects.
    + destruct (timers w !! id) as [tm|]; [|now split].
      destruct (task tm) as [|p|ride sel i|]; cbn [run_task].
      * destruct (repeat tm);
          match goal with
          | |- context [connect ?x] =>
              destruct (connect_attempts x) as [-> ->]
          end; now split.
      * destruct (repeat tm); destruct (isConnected _); try (now split);
          unfold reject, reconnects_scheduled;
          now rewrite settle_service, settle_effects.
      * destruct (repeat tm); now split.
      * destruct (repeat tm); now split.
Qed.

(** Along a run without 'connect' events the counter and the number of
    scheduled reconnects grow together, one per unexpected close, until the
    counter is at the maximum; this from any value of the counter. *)
Lemma run_attempts es : forall w,
  forallb (fun e => negb (is_open e)) es = true ->
  reconnectAttempts (service (run es w))
  = reconnectAttempts (service w)
    + Nat.min (unexpected_closes es w)
        (maxReconnectAttempts - reconnectAttempts (service w))
  /\ reconnects_scheduled (run es w)
     = reconnects_scheduled w
       + Nat.min (unexpected_closes es w)
           (maxReconnectAttempts - reconnectAttempts (service w)).
Proof.
  induction es as [|e es IH]; intros w Hno.
  - cbn. split; lia.
  - cbn [forallb] in Hno. apply andb_true_iff in Hno as [He Hno].
    apply negb_true_iff in He.
    destruct (deliver_attempts e w He) as [Ha Hs]. cbv zeta in Ha, Hs.
    change (run (e :: es) w) with (run es (deliver e w)).
    cbn [unexpected_closes].
    destruct (IH (deliver e w) Hno) as [IHa IHs].
    rewrite IHa, IHs, Ha, Hs. unfold maxReconnectAttempts.
    destruct (unexpected_close e w); cbn [andb].
    + destruct (_ <? _) eqn:Hlt;
        [apply Nat.ltb_lt in Hlt|apply Nat.ltb_ge in Hlt];
        unfold maxReconnectAttempts in Hlt; split; lia.
    + split; lia.
Qed.

(** What settling does to each promise. *)
Lemma settle_lookup p r w q :
  promises (settle p r w) !! q
  = if decide (p = q)
    then match promises w !! q with
         | Some Pending => Some r
         | o => o
         end
    else promises w !! q.
Proof.
  unfold settle. destruct (decide (p = q)) as [->|Hne].
  - destruct (promises w !! q) as [[| |err]|] eqn:Hq; rewrite ?Hq;
      try reflexivity.
    cbn. apply list_lookup_insert_eq. now apply lookup_lt_Some in Hq.
  - destruct (promises w !! p) as [[| |err]|]; try reflexivity.
    cbn. now apply list_lookup_insert_ne.
Qed.

(** [connect()] leaves the promises of earlier calls as they are. *)
Lemma connect_lookup w q o :
  promises w !! q = Some o -> promises (snd (connect w)) !! q = Some o.
Proof.
  intros Hq. pose proof (lookup_lt_Some _ _ _ Hq) as Hlt.
  unfold connect, new_promise. destruct (socket_connected _); cbn [fst snd].
  - unfold resolve. rewrite settle_lookup.
    destruct (decide _) as [He|_]; [lia|].
    cbn. now rewrite lookup_app_l.
  - cbn. now rewrite lookup_app_l.
Qed.

(** A pending promise is resolved by no event but the 'connect' of the
    transport that belongs to it. *)
Lemma resolved_by_connect e w p :
  promises w !! p = Some Pending ->
  promises (deliver e w) !! p = Some Resolved ->
  exists t s,
    e = TransportOpen t /\ sockets w !! t = Some s
    /\ connected s = false /\ destroyed s = false /\ owner s = p.
Proof.
  intros Hp Hr. destruct e as [t|t err|t reason|id]; cbn [deliver] in Hr.
  - destruct (sockets w !! t) as [s|] eqn:Hs; [|congruence].
    destruct (connected s) eqn:Hc, (destroyed s) eqn:Hd; cbn [orb] in Hr;
      try congruence.
    exists t, s. repeat split; try assumption.
    unfold on_connect, resolve in Hr. rewrite settle_lookup in Hr.
    destruct (decide _) as [He|_]; [exact He|].
    cbn in Hr. unfold set_connected in Hr. rewrite Hs in Hr. cbn in Hr.
    congruence.
  - destruct (sockets w !! t) as [s|]; [|congruence].
    destruct (connected s || destroyed s); [congruence|].
    unfold on_connect_error, reject in Hr. rewrite settle_lookup in Hr.
    cbn in Hr. rewrite Hp in Hr. now destruct (decide _).
  - destruct (sockets w !! t) as [s|] eqn:Hs; [|congruence].
    destruct (connected s); [|congruence].
    assert (Hsame : promises (on_disconnect reason (set_connected t false w))
                    = promises w).
    { unfold on_disconnect, set_connected. rewrite Hs.
      now destruct (negb _ && _). }
    congruence.
  - destruct (timers w !! id) as [tm|]; [|congruence].
    match type of Hr with
    | context [run_task _ ?y] =>
        assert (Hy : promises y !! p = Some Pending)
          by (now destruct (repeat tm))
    end.
    destruct (task tm) as [|q|ride sel i|]; cbn [run_task] in Hr.
    + rewrite (connect_lookup _ _ _ Hy) in Hr. discriminate.
    + destruct (isConnected _); [congruence|].
      unfold reject in Hr. rewrite settle_lookup, Hy in Hr.
      now destruct (decide _).
    + congruence.
    + congruence.
Qed.

(** A [connect()] that opens a transport succeeds when that transport
    signals 'connect': its promise is resolved and the counter is 0. *)
Lemma connect_then_open w :
  socket_connected w = false ->
  promises (deliver (TransportOpen (length (sockets w))) (snd (connect w)))
    !! fst (connect w) = Some Resolved
  /\ reconnectAttempts
       (service (deliver (TransportOpen (length (sockets w)))
                   (snd (connect w)))) = 0.
Proof.
  intros H. unfold connect, new_promise.
  change (socket_connected (set_promises (promises w ++ [Pending]) w))
    with (socket_connected w).
  rewrite H. cbn [io setTimer fst snd]. cbn [deliver].
  cbn [sockets perform set_socket set_service set_sockets].
  rewrite list_lookup_middle by reflexivity.
  cbn [connected destroyed orb owner].
  unfold on_connect, resolve. split; [|now rewrite settle_service].
  unfold set_connected.
  cbn [sockets perform set_socket set_service set_sockets].
  rewrite list_lookup_middle by reflexivity.
  rewrite (settle_pending_last (promises w)) by reflexivity.
  cbn. now apply list_lookup_middle.
Qed.

(** C4, as the code has it: below the bound, the handler of an unexpected
    close counts one more attempt and schedules one reconnect timer of
    5000 ms; at the bound it schedules nothing. The counter is set back to 0
    by the 'connect' event of a transport, whether it answers a [connect()]
    or the transport came back by itself: along a run with no 'connect'
    event, from any state, one reconnect is scheduled per unexpected close
    until the counter is at 5 and none after; every 'connect' event leaves
    the counter at 0; and a [connect()] that opens a transport succeeds
    through such an event only, so that it leaves the counter at 0. *)
Theorem reconnection_bound :
  (forall reason w,
     reason <> "io client disconnect" ->
     reconnectAttempts (service w) < 5 ->
     reconnectAttempts (service (on_disconnect reason w))
     = S (reconnectAttempts (service w))
     /\ timers (on_disconnect reason w)
        = <[nextTimer w := {| delay := 5000; repeat := false;
                              task := Reconnect |}]> (timers w)
     /\ effects (on_disconnect reason w)
        = effects w
          ++ [SetTimer (nextTimer w)
                {| delay := 5000; repeat := false; task := Reconnect |}])
  /\ (forall reason w,
        5 <= reconnectAttempts (service w) ->
        reconnectAttempts (service (on_disconnect reason w))
        = reconnectAttempts (service w)
        /\ timers (on_disconnect reason w) = timers w
        /\ effects (on_disconnect reason w) = effects w)
  /\ (forall es w,
        forallb (fun e => negb (is_open e)) es = true ->
        reconnectAttempts (service (run es w))
        = reconnectAttempts (service w)
          + Nat.min (unexpected_closes es w)
              (5 - reconnectAttempts (service w))
        /\ reconnects_scheduled (run es w)
           = reconnects_scheduled w
             + Nat.min (unexpected_closes es w)
                 (5 - reconnectAttempts (service w)))
  /\ (forall t s w,
        sockets w !! t = Some s ->
        connected s = false -> destroyed s = false ->
        reconnectAttempts (service (deliver (TransportOpen t) w)) = 0)
  /\ (forall e w p,
        promises w !! p = Some Pending ->
        promises (deliver e w) !! p = Some Resolved ->
        reconnectAttempts (service (deliver e w)) = 0)
  /\ (forall w,
        socket_connected w = false ->
        promises (deliver (TransportOpen (length (sockets w)))
                    (snd (connect w))) !! fst (connect w) = Some Resolved
        /\ reconnectAttempts
             (service (deliver (TransportOpen (length (sockets w)))
                         (snd (connect w)))) = 0).
Proof.
  assert (Hopen : forall t s w,
            sockets w !! t = Some s ->
            connected s = false -> destroyed s = false ->
            reconnectAttempts (service (deliver (TransportOpen t) w)) = 0).
  { intros t s w Hs Hc Hd. cbn [deliver]. rewrite Hs, Hc, Hd. cbn [orb].
    unfold on_connect, resolve. now rewrite settle_service. }
  split; [|split; [|split; [|split; [|split]]]];
    [| | |exact Hopen| |exact connect_then_open].
  - intros reason w Hr Hlt. rewrite on_disconnect_retry by assumption.
    now cbn.
  - intros reason w Hge. rewrite on_disconnect_stop by now right. now cbn.
  - intros es w Hno. exact (run_attempts es w Hno).
  - intros e w p Hp Hr.
    destruct (resolved_by_connect e w p Hp Hr)
      as (t & s & -> & Hs & Hc & Hd & _).
    exact (Hopen t s w Hs Hc Hd).
Qed.

End ConnectionManager.

Section ReconnectionExamples.
Import Browser Examples.

Lemma connect_idempotent_witness :
  socket_connected connected_world = true
  /\ promises (snd (connect (snd (connect connected_world))))
       !! fst (connect connected_world) = Some Resolved
  /\ promises (snd (connect (snd (connect connected_world))))
       !! fst (connect (snd (connect connected_world))) = Some Resolved
  /\ sockets (snd (connect (snd (connect connected_world))))
     = sockets connected_world.
Proof.
  split; [reflexivity|].
  destruct (connect_idempotent connected_world eq_refl)
    as (_ & H1 & H2 & H3 & _).
  exact (conj H1 (conj H2 H3)).
Defined.

(** Six transports close unexpectedly in a row, with no 'connect' in
    between: five reconnects are scheduled, the sixth close schedules none. *)
Lemma reconnection_bound_witness :
  (forallb (fun e => negb (is_open e)) (closes [0; 1; 2; 3; 4; 5]) = true
   /\ reconnectAttempts (service six_connected) = 0
   /\ unexpected_closes (closes [0; 1; 2; 3; 4; 5]) six_connected = 6)
  /\ reconnectAttempts
       (service (run (closes [0; 1; 2; 3; 4; 5]) six_connected))
     = 5
  /\ reconnects_scheduled (run (closes [0; 1; 2; 3; 4; 5]) six_connected)
     = reconnects_scheduled six_connected + 5.
Proof.
  assert (Hno : forallb (fun e => negb (is_open e))
                  (closes [0; 1; 2; 3; 4; 5]) = true)
    by (vm_compute; reflexivity).
  assert (H0 : reconnectAttempts (service six_connected) = 0)
    by (vm_compute; reflexivity).
  assert (H6 : unexpected_closes (closes [0; 1; 2; 3; 4; 5]) six_connected
               = 6)
    by (vm_compute; reflexivity).
  split; [now repeat split|].
  destruct (proj1 (proj2 (proj2 reconnection_bound))
              (closes [0; 1; 2; 3; 4; 5]) six_connected Hno) as [Ha Hs].
  rewrite H0, H6 in Ha, Hs. split; [exact Ha|exact Hs].
Defined.

(** The transport of a connected service closes unexpectedly seven times
    in a row and comes back by itself each time; no timer has fired yet, so
    [connect()] was not called again: the promise of the first call is the
    only one and no second transport was opened. Every one of the seven
    closes schedules a reconnect, the sixth and the seventh too. *)
Lemma flapping_transport_unbounded :
  forallb (fun e => match e with TimerFire _ => false | _ => true end)
    (flaps 7 0) = true
  /\ length (promises (run (flaps 7 0) connected_world))
     = length (promises connected_world)
  /\ transports_opened (run (flaps 7 0) connected_world) = 1
  /\ unexpected_closes (flaps 7 0) connected_world = 7
  /\ reconnects_scheduled (run (flaps 5 0) connected_world) = 5
  /\ reconnects_scheduled (run (flaps 6 0) connected_world) = 6
  /\ reconnects_scheduled (run (flaps 7 0) connected_world) = 7.
Proof. vm_compute. repeat split. Qed.

(** The case the policy above leaves open: transport 1 is the current one
    and connected when the replaced transport 0, which had come back by
    itself, closes unexpectedly. The counter is 1; a [connect()] now returns at once
    through the guard on [this.socket?.connected], resolved, and the counter
    is still 1. *)
Example connect_returning_at_once_keeps_counter :
  socket_connected stale_close = true
  /\ reconnectAttempts (service stale_close) = 1
  /\ promises (snd (connect stale_close)) !! fst (connect stale_close)
     = Some Resolved
  /\ reconnectAttempts (service (snd (connect stale_close))) = 1.
Proof. vm_compute. repeat split. Qed.

(** An unexpected close, a deliberate [disconnect()] within the five
    seconds, then the reconnect timer: transport 1 is opened. *)
Lemma reconnect_after_disconnect_witness :
  timers (deliver (TransportClose 0 "transport close") connected_world) !! 2
  = Some {| delay := 5000; repeat := false; task := Reconnect |}
  /\ socket (service closed_then_disconnected) = None
  /\ socket (service (deliver (TimerFire 2) closed_then_disconnected))
     = Some 1
  /\ transports_opened (deliver (TimerFire 2) closed_then_disconnected) = 2.
Proof.
  assert (Hk : timers (deliver (TransportClose 0 "transport close")
                         connected_world) !! 2
               = Some {| delay := 5000; repeat := false; task := Reconnect |})
    by (vm_compute; reflexivity).
  split; [exact Hk|].
  destruct (reconnect_after_disconnect _ 2 Hk) as (H1 & _ & H3 & _ & H5).
  exact (conj H1 (conj H3 H5)).
Defined.

End ReconnectionExamples.

(** ** Timers of the world *)

Section Timers.
Import Browser.

Lemma service_timers_same w w' :
  timers w' = timers w -> nextTimer w' = nextTimer w -> service_timers w w'.
Proof. intros Ht Hn. split; [lia|]. intros k tm. rewrite Ht. now left. Qed.

Lemma service_timers_refl w : service_timers w w.
Proof. now apply service_timers_same. Qed.

Lemma service_timers_trans w1 w2 w3 :
  service_timers w1 w2 -> service_timers w2 w3 -> service_timers w1 w3.
Proof.
  intros [Hn1 H1] [Hn2 H2]. split; [lia|]. intros k tm Hk.
  destruct (H2 k tm Hk) as [Hk2|[Hr Hf]].
  - destruct (H1 k tm Hk2) as [Hk1|[Hr Hf]]; [now left|right].
    split; [lia|easy].
  - right. split; [lia|easy].
Qed.

Lemma service_timers_setTimer tm w :
  is_feed tm = false -> service_timers w (snd (setTimer tm w)).
Proof.
  intros Hf. split; cbn; [lia|]. intros k tm' Hk.
  destruct (decide (nextTimer w = k)) as [<-|Hne].
  - rewrite lookup_insert_eq in Hk. injection Hk as <-. right.
    split; [lia|easy].
  - rewrite lookup_insert_ne in Hk by exact Hne. now left.
Qed.

Lemma service_timers_delete id w w' :
  timers w' = delete id (timers w) -> nextTimer w' = nextTimer w ->
  service_timers w w'.
Proof.
  intros Ht Hn. split; [lia|]. intros k tm. rewrite Ht. intros Hk. left.
  destruct (decide (id = k)) as [<-|Hne].
  - now rewrite lookup_delete_eq in Hk.
  - now rewrite lookup_delete_ne in Hk.
Qed.

Lemma service_timers_settle p r w : service_timers w (settle p r w).
Proof.
  apply service_timers_same; [apply settle_timers|apply settle_nextTimer].
Qed.

Lemma service_timers_set_connected t b w :
  service_timers w (set_connected t b w).
Proof.
  apply service_timers_same;
    [apply set_connected_timers|apply set_connected_nextTimer].
Qed.

Lemma service_timers_destroy t w : service_timers w (destroy t w).
Proof.
  apply service_timers_same; unfold destroy; now destruct (sockets w !! t).
Qed.

Lemma service_timers_connect w : service_timers w (snd (connect w)).
Proof.
  unfold connect, new_promise. destruct (socket_connected _); cbn [fst snd].
  - eapply service_timers_trans; [|apply service_timers_settle].
    now apply service_timers_same.
  - unfold io. cbn [fst snd].
    match goal with
    | |- context [setTimer ?tm ?x] =>
        change (service_timers w (snd (setTimer tm x)));
        eapply service_timers_trans;
        [|now apply (service_timers_setTimer tm x)]
    end.
    now apply service_timers_same.
Qed.

Lemma service_timers_on_disconnect reason w :
  service_timers w (on_disconnect reason w).
Proof.
  unfold on_disconnect.
  destruct (negb _ && _).
  - eapply service_timers_trans; [|now apply service_timers_setTimer].
    now apply service_timers_same.
  - now apply service_timers_same.
Qed.

Lemma service_timers_disconnect w : service_timers w (disconnect w).
Proof.
  apply service_timers_same.
  - apply disconnect_keeps_timers.
  - unfold disconnect. destruct (socket (service w)) as [t|]; [|reflexivity].
    cbn. unfold socket_disconnect.
    destruct (sockets w !! t) as [s|] eqn:Hs; [|reflexivity].
    assert (Hd : forall x, nextTimer (destroy t x) = nextTimer x).
    { intros x. unfold destroy. now destruct (sockets x !! t). }
    destruct (connected s); [|apply Hd].
    rewrite on_disconnect_stop by now left. cbn.
    now rewrite set_connected_nextTimer, Hd.
Qed.

Lemma service_timers_joinRideRoom rideId userId role w :
  service_timers w (joinRideRoom rideId userId role w).
Proof.
  unfold joinRideRoom. destruct (socket (service w)) as [t|];
    [destruct (isConnected (service w))|]; now apply service_timers_same.
Qed.

Lemma service_timers_leaveRideRoom rideId userId w :
  service_timers w (leaveRideRoom rideId userId w).
Proof.
  unfold leaveRideRoom. destruct (socket (service w)) as [t|];
    [destruct (isConnected (service w))|]; now apply service_timers_same.
Qed.

Lemma service_timers_run_task k w : service_timers w (run_task k w).
Proof.
  destruct k as [|p|ride sel i|]; cbn [run_task].
  - apply service_timers_connect.
  - destruct (isConnected (service w));
      [apply service_timers_refl|apply service_timers_settle].
  - apply service_timers_refl.
  - apply service_timers_refl.
Qed.

(** The environment removes timers and adds timers of the socket service,
    never a feed timer. *)
Lemma service_timers_deliver e w : service_timers w (deliver e w).
Proof.
  destruct e as [t|t err|t reason|id]; cbn [deliver].
  - destruct (sockets w !! t) as [s|]; [|apply service_timers_refl].
    destruct (connected s || destroyed s); [apply service_timers_refl|].
    unfold on_connect, resolve.
    eapply service_timers_trans; [|apply service_timers_settle].
    eapply service_timers_trans; [apply (service_timers_set_connected t true)|].
    now apply service_timers_same.
  - destruct (sockets w !! t) as [s|]; [|apply service_timers_refl].
    destruct (connected s || destroyed s); [apply service_timers_refl|].
    unfold on_connect_error, reject.
    eapply service_timers_trans; [|apply service_timers_settle].
    now apply service_timers_same.
  - destruct (sockets w !! t) as [s|]; [|apply service_timers_refl].
    destruct (connected s); [|apply service_timers_refl].
    eapply service_timers_trans;
      [apply (service_timers_set_connected t false)|].
    apply service_timers_on_disconnect.
  - destruct (timers w !! id) as [tm|]; [|apply service_timers_refl].
    eapply service_timers_trans; [|apply service_timers_run_task].
    destruct (repeat tm); [apply service_timers_refl|].
    now apply (service_timers_delete id).
Qed.

(** [locationIndex++] leaves every timer in place, with its delay, its kind
    and, unless it is the feed timer behind the handle, its callback. *)
Lemma advance_fields id w :
  service (advance id w) = service w
  /\ sockets (advance id w) = sockets w
  /\ promises (advance id w) = promises w
  /\ nextTimer (advance id w) = nextTimer w
  /\ effects (advance id w) = effects w.
Proof.
  unfold advance.
  destruct (timers w !! id) as [[d r [| |ride sel i|]]|]; now repeat split.
Qed.

Lemma advance_lookup id w k tm :
  timers (advance id w) !! k = Some tm ->
  exists tm0,
    timers w !! k = Some tm0
    /\ is_feed tm0 = is_feed tm
    /\ delay tm0 = delay tm
    /\ repeat tm0 = repeat tm
    /\ (is_feed tm = false -> tm0 = tm).
Proof.
  unfold advance.
  destruct (timers w !! id) as [[d r [| |ride sel i|]]|] eqn:Hid;
    try (intros Hk; exists tm; now repeat split).
  cbn [timers]. intros Hk. destruct (decide (id = k)) as [<-|Hne].
  - rewrite lookup_insert_eq in Hk. injection Hk as <-.
    eexists. split; [exact Hid|]. repeat split. discriminate.
  - rewrite lookup_insert_ne in Hk by exact Hne. exists tm. now repeat split.
Qed.

Lemma lookup_advance id w k tm0 :
  timers w !! k = Some tm0 ->
  exists tm,
    timers (advance id w) !! k = Some tm
    /\ is_feed tm = is_feed tm0
    /\ delay tm = delay tm0
    /\ repeat tm = repeat tm0
    /\ (is_feed tm0 = false -> tm = tm0).
Proof.
  unfold advance. intros Hk.
  destruct (timers w !! id) as [[d r [| |ride sel i|]]|] eqn:Hid;
    try (exists tm0; now repeat split).
  cbn [timers]. destruct (decide (id = k)) as [<-|Hne].
  - rewrite lookup_insert_eq. rewrite Hid in Hk. injection Hk as <-.
    eexists. split; [reflexivity|]. repeat split. discriminate.
  - rewrite lookup_insert_ne by exact Hne. exists tm0. now repeat split.
Qed.

Lemma timers_wf_advance id w : timers_wf w -> timers_wf (advance id w).
Proof.
  intros [Hpos Hwf]. destruct (advance_fields id w) as (_ & _ & _ & Hn & _).
  split; rewrite Hn; [exact Hpos|]. intros k tm Hk.
  destruct (advance_lookup id w k tm Hk) as (tm0 & Hk0 & _).
  exact (Hwf k tm0 Hk0).
Qed.

Lemma timers_wf_service w w' :
  timers_wf w -> service_timers w w' -> timers_wf w'.
Proof.
  intros [Hpos Hwf] [Hn H]. split; [lia|]. intros k tm Hk.
  destruct (H k tm Hk) as [Hk'|[Hr _]]; [|lia].
  specialize (Hwf k tm Hk'). lia.
Qed.

Lemma feed_timer_service w w' k tm :
  service_timers w w' -> timers w' !! k = Some tm -> is_feed tm = true ->
  timers w !! k = Some tm.
Proof.
  intros [_ H] Hk Hf. destruct (H k tm Hk) as [Hk'|[_ Hf']]; [easy|congruence].
Qed.

End Timers.

(** ** Room membership *)

Section RoomMembership.
Import Browser Tracking Examples.

(** What [handleEmployeeSelect] attempts: called while [currentRide] holds
    a ride A and the view is connected, it emits, within the one call, the
    leave frame of ride A and then the join frame of ride B on the current
    socket, and ride B becomes the tracked ride. *)
Lemma leave_before_join now rideB riderB name st w a t :
  currentRide st = Some a ->
  isSocketConnected st = true ->
  socket (service w) = Some t ->
  isConnected (service w) = true ->
  effects (snd (handleEmployeeSelect now rideB riderB name (st, w)))
  = effects w
    ++ [Emit t (LeaveRideRoom (Ride.rideId a) (Ride.riderId a));
        Emit t (JoinRideRoom rideB riderB "admin")]
  /\ currentRide (fst (handleEmployeeSelect now rideB riderB name (st, w)))
     = Some (Ride.mk rideB riderB name).
Proof.
  intros Hride Hui Hsock Hconn. unfold handleEmployeeSelect.
  rewrite Hride, Hui. cbn [fst snd].
  unfold leaveRideRoom. rewrite Hsock, Hconn.
  unfold joinRideRoom. cbn [perform service]. rewrite Hsock, Hconn.
  cbn. now rewrite <- app_assoc.
Qed.

End RoomMembership.

Section RoomMembershipExamples.
Import Browser Tracking Examples.

Lemma leave_before_join_witness :
  (currentRide tracking8 = Some ride8
   /\ isSocketConnected tracking8 = true
   /\ socket (service connected_world) = Some 0
   /\ isConnected (service connected_world) = true)
  /\ effects (snd (handleEmployeeSelect now 9 4 "Jane Roe"
                     (tracking8, connected_world)))
     = effects connected_world
       ++ [Emit 0 (LeaveRideRoom 8 7); Emit 0 (JoinRideRoom 9 4 "admin")].
Proof.
  split; [repeat split|].
  exact (proj1 (leave_before_join now 9 4 "Jane Roe" tracking8
                  connected_world ride8 0 eq_refl eq_refl eq_refl eq_refl)).
Defined.

End RoomMembershipExamples.

(** ** Synthetic feed *)

Section SyntheticFeed.
Import Browser Tracking App.

Lemma feed_inv_world st w w' :
  service_timers w w' ->
  feed_inv {| view := Some st; world := w |} ->
  feed_inv {| view := Some st; world := w' |}.
Proof.
  intros Hs [Hwf (Hfeed & Hoff & Hnz)]. cbn in *.
  split; [now apply (timers_wf_service w)|]. cbn. repeat split; try easy.
  intros k tm Hk Hf. apply (Hfeed k tm); [|exact Hf].
  now apply (feed_timer_service w w').
Qed.

Lemma feed_inv_view st st' w :
  isTestMode st' = isTestMode st ->
  testIntervalRef st' = testIntervalRef st ->
  feed_inv {| view := Some st; world := w |} ->
  feed_inv {| view := Some st'; world := w |}.
Proof.
  intros Hm Hr [Hwf H]. split; [exact Hwf|]. cbn in *. now rewrite Hm, Hr.
Qed.

(** While test mode is off there is no feed timer. *)
Lemma feed_inv_off st w k tm :
  feed_inv {| view := Some st; world := w |} ->
  isTestMode st = false ->
  timers w !! k = Some tm -> is_feed tm = false.
Proof.
  intros [_ (Hfeed & Hoff & _)] Hm Hk. cbn in *.
  destruct (is_feed tm) eqn:Hf; [|reflexivity].
  specialize (Hfeed k tm Hk Hf). rewrite (Hoff Hm) in Hfeed. discriminate.
Qed.

Lemma feed_inv_startTestMode st w :
  isTestMode st = false ->
  feed_inv {| view := Some st; world := w |} ->
  feed_inv {| view := Some (fst (startTestMode (st, w)));
              world := snd (startTestMode (st, w)) |}.
Proof.
  intros Hm Hinv. unfold startTestMode.
  destruct (currentRide st) as [ride|]; [|exact Hinv]. cbn [fst snd setTimer].
  assert (Hnone : forall k tm, timers w !! k = Some tm -> is_feed tm = false)
    by (intros k tm; now apply (feed_inv_off st w)).
  destruct Hinv as [[Hpos Hwf] _]. cbn in Hpos, Hwf.
  split; [split|]; cbn.
  - lia.
  - intros k tm Hk. destruct (decide (nextTimer w = k)) as [<-|Hne]; [lia|].
    rewrite lookup_insert_ne in Hk by exact Hne.
    specialize (Hwf k tm Hk). lia.
  - repeat split; try discriminate.
    + intros k tm Hk Hf.
      destruct (decide (nextTimer w = k)) as [<-|Hne]; [reflexivity|].
      rewrite lookup_insert_ne in Hk by exact Hne.
      rewrite (Hnone k tm Hk) in Hf. discriminate.
    + intros Heq. injection Heq as Heq. lia.
Qed.

Lemma feed_inv_idle st w :
  timers_wf w ->
  (forall k tm, timers w !! k = Some tm -> is_feed tm = false) ->
  testIntervalRef st = None ->
  feed_inv {| view := Some st; world := w |}.
Proof.
  intros Hwf Hnone Href. split; [exact Hwf|]. cbn. repeat split.
  - intros k tm Hk Hf. rewrite (Hnone k tm Hk) in Hf. discriminate.
  - intros _. exact Href.
  - rewrite Href. discriminate.
Qed.

(** [stopTestMode()] forgets the handle and leaves no feed timer behind. *)
Lemma stopTestMode_clears st w :
  feed_inv {| view := Some st; world := w |} ->
  testIntervalRef (fst (stopTestMode (st, w))) = None
  /\ timers_wf (snd (stopTestMode (st, w)))
  /\ forall k tm,
       timers (snd (stopTestMode (st, w))) !! k = Some tm ->
       is_feed tm = false.
Proof.
  intros [[Hpos Hwf] (Hfeed & Hoff & Hnz)]. cbn in Hpos, Hwf, Hfeed, Hoff, Hnz.
  unfold stopTestMode, clearTestInterval.
  destruct (testIntervalRef st) as [[|n]|] eqn:Href; cbn.
  - now destruct Hnz.
  - split; [reflexivity|]. split; [split; [exact Hpos|]|]; intros k tm Hk;
      unfold clearTimer, perform in Hk |- *;
      cbn [timers nextTimer] in Hk |- *;
      destruct (decide (S n = k)) as [<-|Hne];
      try (now rewrite lookup_delete_eq in Hk);
      rewrite lookup_delete_ne in Hk by exact Hne.
    + exact (Hwf k tm Hk).
    + destruct (is_feed tm) eqn:Hf; [|reflexivity].
      specialize (Hfeed k tm Hk Hf). congruence.
  - split; [exact Href|]. split; [split; [exact Hpos|exact Hwf]|].
    intros k tm Hk. destruct (is_feed tm) eqn:Hf; [|reflexivity].
    specialize (Hfeed k tm Hk Hf). discriminate.
Qed.

Lemma feed_inv_stopTestMode st w :
  feed_inv {| view := Some st; world := w |} ->
  feed_inv {| view := Some (fst (stopTestMode (st, w)));
              world := snd (stopTestMode (st, w)) |}.
Proof.
  intros Hinv. destruct (stopTestMode_clears st w Hinv) as (Href & Hwf & Hnone).
  now apply feed_inv_idle.
Qed.

Lemma handleEmployeeSelect_feed now rideId riderId name st w :
  service_timers w (snd (handleEmployeeSelect now rideId riderId name (st, w)))
  /\ isTestMode (fst (handleEmployeeSelect now rideId riderId name (st, w)))
     = isTestMode st
  /\ testIntervalRef
       (fst (handleEmployeeSelect now rideId riderId name (st, w)))
     = testIntervalRef st.
Proof.
  unfold handleEmployeeSelect.
  destruct (currentRide st) as [ride|], (isSocketConnected st); cbn;
    (split; [|split; reflexivity]);
    try apply service_timers_refl;
    try apply service_timers_joinRideRoom.
  eapply service_timers_trans;
    [apply service_timers_leaveRideRoom|apply service_timers_joinRideRoom].
Qed.

Lemma handleLocationUpdate_feed now cur sel data st :
  isTestMode (snd (handleLocationUpdate now cur sel data st)) = isTestMode st
  /\ testIntervalRef (snd (handleLocationUpdate now cur sel data st))
     = testIntervalRef st.
Proof.
  unfold handleLocationUpdate.
  destruct (ignored cur data); [now split|].
  destruct (placeholder data); [now split|].
  destruct (invalid _ _); [now split|].
  cbn [snd]. unfold panTo. cbn. now destruct (mapRef st).
Qed.

Lemma feed_inv_stopTracking st w :
  feed_inv {| view := Some st; world := w |} ->
  feed_inv {| view := Some (fst (stopTracking (st, w)));
              world := snd (stopTracking (st, w)) |}.
Proof.
  intros Hinv. unfold stopTracking.
  match goal with
  | |- context [stopTestMode (st, ?x)] =>
      assert (Hx : feed_inv {| view := Some st; world := x |});
      [|apply feed_inv_stopTestMode in Hx;
        destruct (stopTestMode (st, x)) as [st' w']]
  end.
  - apply (feed_inv_world st w); [|exact Hinv].
    destruct (currentRide st) as [ride|], (isSocketConnected st);
      try apply service_timers_refl.
    apply service_timers_leaveRideRoom.
  - cbn [fst snd] in *. now apply (feed_inv_view st').
Qed.

Lemma feed_inv_unmount st w :
  feed_inv {| view := Some st; world := w |} ->
  feed_inv {| view := None; world := unmount st w |}.
Proof.
  intros Hinv. unfold unmount.
  assert (Hx : feed_inv {| view := Some (setIsSocketConnected false st);
                           world := disconnect w |}).
  { apply (feed_inv_view st); [reflexivity..|].
    apply (feed_inv_world st w); [apply service_timers_disconnect|exact Hinv]. }
  apply stopTestMode_clears in Hx.
  destruct (stopTestMode _) as [st' w']. cbn [fst snd] in Hx.
  destruct Hx as (-> & Hwf & Hnone). split; cbn [view world].
  - apply (timers_wf_service w'); [exact Hwf|].
    now apply (service_timers_delete liveInterval).
  - intros k tm Hk. apply (Hnone k). unfold clearTimer, perform in Hk.
    cbn [timers] in Hk. now apply lookup_delete_Some in Hk as [_ Hk].
Qed.

Lemma feed_inv_advance st id w :
  feed_inv {| view := Some st; world := w |} ->
  feed_inv {| view := Some st; world := advance id w |}.
Proof.
  intros [Hwf (Hfeed & Hoff & Hnz)]. cbn [view world] in *.
  split; [now apply timers_wf_advance|]. cbn [view world].
  repeat split; try easy.
  intros k tm Hk Hf.
  destruct (advance_lookup id w k tm Hk) as (tm0 & Hk0 & Hf0 & _).
  apply (Hfeed k tm0 Hk0). congruence.
Qed.

(** The callbacks of the intervals touch the roster and the map only. *)
Lemma fire_feed now tm st :
  isTestMode (fire now tm st) = isTestMode st
  /\ testIntervalRef (fire now tm st) = testIntervalRef st.
Proof.
  unfold fire. destruct (task tm) as [|p|ride sel i|]; try now split.
  unfold Feed.tick. cbn [snd]. apply handleLocationUpdate_feed.
Qed.

(** Every step of the view keeps the invariant. *)
Lemma feed_inv_step now a x : feed_inv x -> feed_inv (step now a x).
Proof.
  destruct x as [[st|] w]; intros Hinv; unfold step; cbn [view world].
  - destruct (enabled a st w) eqn:Hen; [|exact Hinv].
    destruct a as [| | | | |rid rdr nm| | | | |data| |msg|e| |locs];
      cbn [act fst snd].
    + apply feed_inv_startTestMode; [|exact Hinv].
      cbn in Hen. destruct (currentRide st); [|discriminate].
      now apply negb_true_iff in Hen.
    + now apply feed_inv_stopTestMode.
    + now apply feed_inv_stopTracking.
    + now apply (feed_inv_view st).
    + now apply (feed_inv_view st).
    + destruct (handleEmployeeSelect_feed (clock now) rid rdr nm st w)
        as (Hs & Hm & Hr).
      apply (feed_inv_view st); [exact Hm|exact Hr|].
      now apply (feed_inv_world st w).
    + now apply (feed_inv_view st).
    + now apply (feed_inv_view st).
    + now apply (feed_inv_view st).
    + now apply (feed_inv_view st).
    + destruct (handleLocationUpdate_feed (clock now)
                  (currentRide initialState)
                  (selectedEmployee initialState) data st) as [Hm Hr].
      now apply (feed_inv_view st).
    + now apply (feed_inv_view st).
    + now apply (feed_inv_view st).
    + unfold environment.
      assert (Hd : feed_inv {| view := Some st; world := deliver e w |})
        by (apply (feed_inv_world st w);
            [apply service_timers_deliver|exact Hinv]).
      destruct e as [t|t err|t reason|id]; try exact Hd.
      destruct (timers w !! id) as [tm|]; [|exact Hd].
      destruct (fire_feed now tm st) as [Hm Hr].
      apply feed_inv_advance. now apply (feed_inv_view st).
    + now apply feed_inv_unmount.
    + apply (feed_inv_view st); [reflexivity..|].
      apply (feed_inv_world st w); [apply service_timers_settle|exact Hinv].
  - destruct a as [| | | | |rid rdr nm| | | | |data| |msg|e| |locs];
      try exact Hinv.
    destruct Hinv as [Hwf Hnone]. cbn in Hwf, Hnone.
    pose proof (service_timers_deliver e w) as Hs.
    split; cbn; [now apply (timers_wf_service w)|].
    intros k tm Hk. destruct (is_feed tm) eqn:Hf; [|reflexivity].
    rewrite <- Hf. apply (Hnone k).
    now apply (feed_timer_service w (deliver e w)).
Qed.

Lemma mount_timers k tm :
  timers (world mount) !! k = Some tm ->
  0 < k < nextTimer (world mount) /\ is_feed tm = false.
Proof.
  cbn. intros Hk.
  destruct (decide (2 = k)) as [<-|Hne2].
  - rewrite lookup_insert_eq in Hk. injection Hk as <-. split; [lia|easy].
  - rewrite lookup_insert_ne in Hk by exact Hne2.
    destruct (decide (1 = k)) as [<-|Hne1].
    + rewrite lookup_insert_eq in Hk. injection Hk as <-. split; [lia|easy].
    + rewrite lookup_insert_ne in Hk by exact Hne1.
      now rewrite lookup_empty in Hk.
Qed.

Lemma feed_inv_mount : feed_inv mount.
Proof.
  split; [split|]; cbn [view mount].
  - cbn. lia.
  - intros k tm Hk. now apply (mount_timers k tm).
  - repeat split; try discriminate.
    intros k tm Hk Hf. apply mount_timers in Hk as [_ Hk]. congruence.
Qed.

Lemma reachable_feed_inv x : Reachable x -> feed_inv x.
Proof.
  induction 1 as [|now a x _ IH]; [apply feed_inv_mount|].
  now apply feed_inv_step.
Qed.

Lemma reachable_after now actions : Reachable (after now actions).
Proof.
  unfold after. induction actions as [|a actions IH] using rev_ind.
  - apply reach_mount.
  - rewrite foldl_snoc. now apply reach_step.
Qed.

(** C9: in every state the view can reach, starting the feed while it is
    running is a no-op (the Enable control does nothing while a feed timer
    is active), at most one feed timer is active, and none is while the
    Enable control is offered or after unmounting; stopping the feed cancels
    its timer: [stopTestMode()] leaves no feed timer in the table, and so
    does the Stop control. *)
Theorem one_feed_timer x :
  Reachable x ->
  (forall now st k tm,
     view x = Some st ->
     timers (world x) !! k = Some tm -> is_feed tm = true ->
     step now EnableTestMode x = x)
  /\ (forall i j ti tj,
        timers (world x) !! i = Some ti -> timers (world x) !! j = Some tj ->
        is_feed ti = true -> is_feed tj = true -> i = j)
  /\ (forall st,
        view x = Some st -> enabled EnableTestMode st (world x) = true ->
        forall k tm, timers (world x) !! k = Some tm -> is_feed tm = false)
  /\ (forall st,
        view x = Some st ->
        forall k tm,
          timers (snd (stopTestMode (st, world x))) !! k = Some tm ->
          is_feed tm = false)
  /\ (forall now st,
        view x = Some st -> enabled StopTestMode st (world x) = true ->
        forall k tm,
          timers (world (step now StopTestMode x)) !! k = Some tm ->
          is_feed tm = false)
  /\ (view x = None ->
      forall k tm, timers (world x) !! k = Some tm -> is_feed tm = false).
Proof.
  intros Hreach. apply reachable_feed_inv in Hreach.
  destruct x as [[st|] w]; cbn [view world].
  - split; [|split; [|split; [|split; [|split]]]].
    + intros now st' k tm [= <-] Hk Hf. unfold step. cbn [view world].
      destruct Hreach as [_ (Hfeed & Hoff & _)]. cbn [view world] in *.
      pose proof (Hfeed k tm Hk Hf) as Href.
      cbn [enabled]. destruct (isTestMode st) eqn:Hm.
      * now destruct (currentRide st).
      * rewrite (Hoff eq_refl) in Href. discriminate.
    + intros i j ti tj Hi Hj Hfi Hfj.
      destruct Hreach as [_ (Hfeed & _)]. cbn in Hfeed.
      pose proof (Hfeed i ti Hi Hfi) as Ei.
      pose proof (Hfeed j tj Hj Hfj) as Ej. congruence.
    + intros st' [= <-] Hen k tm Hk.
      apply (feed_inv_off st w k tm Hreach); [|exact Hk].
      cbn in Hen. destruct (currentRide st); [|discriminate].
      now apply negb_true_iff in Hen.
    + intros st' [= <-]. now apply stopTestMode_clears.
    + intros now st' [= <-] Hen. unfold step. cbn [view world].
      rewrite Hen. cbn [act world snd]. now apply stopTestMode_clears.
    + discriminate.
  - destruct Hreach as [_ Hnone]. cbn in Hnone.
    split; [|split; [|split; [|split; [|split]]]]; try discriminate.
    + intros i j ti tj Hi Hj Hfi Hfj.
      rewrite (Hnone i ti Hi) in Hfi. discriminate.
    + intros _. exact Hnone.
Qed.

End SyntheticFeed.

Section SyntheticFeedExamples.
Import Browser Tracking App Examples.

(** After ride 8 is selected and test mode enabled, timer 3 is the feed
    timer and the only one (1 is the connection timeout, 2 the interval of
    the simulated live updates), and the Enable control does nothing. *)
Lemma one_feed_timer_witness :
  Reachable (after moment running)
  /\ timers (world (after moment running)) !! 3 = Some feed8
  /\ step moment EnableTestMode (after moment running) = after moment running
  /\ forall j tj,
       timers (world (after moment running)) !! j = Some tj ->
       is_feed tj = true -> 3 = j.
Proof.
  assert (H3 : timers (world (after moment running)) !! 3 = Some feed8)
    by (vm_compute; reflexivity).
  assert (Hv : exists st, view (after moment running) = Some st)
    by (vm_compute; eexists; reflexivity).
  destruct Hv as [st Hv].
  pose proof (one_feed_timer (after moment running)
                (reachable_after moment running)) as (Hnoop & Hone & _).
  split; [apply reachable_after|]. split; [exact H3|]. split.
  - exact (Hnoop moment st 3 feed8 Hv H3 eq_refl).
  - intros j tj Hj Hf. exact (Hone 3 j feed8 tj H3 Hj eq_refl Hf).
Defined.

(** [startTestMode()] itself has no guard: called directly while the feed
    for ride 8 is running, it would start a second interval and the ref
    would only remember the new one. The view never makes that call, since
    the control is rendered under [!isTestMode && currentRide]. *)
Lemma second_start_leaks_timer :
  isTestMode (fst feeding) = true
  /\ testIntervalRef (fst feeding) = Some 2
  /\ timers (snd feeding) !! 2 = Some feed8
  /\ timers (snd (startTestMode feeding)) !! 2 = Some feed8
  /\ timers (snd (startTestMode feeding)) !! 3 = Some feed8
  /\ testIntervalRef (fst (startTestMode feeding)) = Some 3
  /\ timers (snd (stopTestMode (startTestMode feeding))) !! 2 = Some feed8.
Proof. vm_compute. repeat split. Qed.

End SyntheticFeedExamples.

(** * Further properties of the socket service *)

Section ServiceFacts.
Import Browser Examples Scenarios.

Ltac break_match :=
  match goal with
  | |- context [match ?x with _ => _ end] => destruct x eqn:?
  end.

Ltac unfold_service :=
  unfold deliver, run_task, connect, new_promise, io, setTimer, clearTimer,
    on_connect, on_connect_error, on_disconnect, socket_disconnect,
    disconnect, joinRideRoom, leaveRideRoom, resolve, reject, settle,
    set_connected, destroy, socket_connected, set_socket, set_isConnected,
    set_reconnectAttempts, set_service, set_sockets, set_promises, perform.

Lemma frames_perform e w :
  frames (perform e w)
  = frames w ++ match e with Emit t f => [(t, f)] | _ => [] end.
Proof.
  unfold frames, perform. cbn [effects]. rewrite omap_app.
  now destruct e.
Qed.

(** Events of the environment send no frame. *)
Lemma frames_deliver e w : frames (deliver e w) = frames w.
Proof.
  unfold frames. destruct e; unfold_service; cbn;
    repeat (break_match; cbn);
    rewrite ?omap_app; cbn; rewrite ?app_nil_r; reflexivity.
Qed.

(** After [disconnect()] the service is inert: the status is false, a
    second [disconnect()] changes nothing, and [joinRideRoom] and
    [leaveRideRoom] send nothing and change nothing. *)
Theorem after_disconnect_inert rideId userId role w :
  getConnectionStatus (disconnect w) = false
  /\ disconnect (disconnect w) = disconnect w
  /\ joinRideRoom rideId userId role (disconnect w) = disconnect w
  /\ leaveRideRoom rideId userId (disconnect w) = disconnect w.
Proof.
  destruct (disconnect_socket w) as (Hs & _ & _).
  unfold getConnectionStatus, socket_connected, joinRideRoom, leaveRideRoom.
  rewrite Hs. rewrite andb_false_r. repeat split.
  unfold disconnect at 1. now rewrite Hs.
Qed.

(** When [getConnectionStatus()] is true, [joinRideRoom] and
    [leaveRideRoom] each send exactly their frame on the current socket. *)
Theorem status_gates_room_calls rideId userId role w :
  getConnectionStatus w = true ->
  exists t,
    socket (service w) = Some t
    /\ frames (joinRideRoom rideId userId role w)
       = frames w ++ [(t, JoinRideRoom rideId userId role)]
    /\ frames (leaveRideRoom rideId userId w)
       = frames w ++ [(t, LeaveRideRoom rideId userId)].
Proof.
  unfold getConnectionStatus, socket_connected. intros H.
  apply andb_true_iff in H as [Hc Hs].
  destruct (socket (service w)) as [t|] eqn:Ht; [|discriminate].
  exists t. split; [reflexivity|].
  unfold joinRideRoom, leaveRideRoom. rewrite Ht, Hc.
  now rewrite !frames_perform.
Qed.

(** What [connect()] does when the current transport is not connected. *)
Lemma connect_opening w :
  socket_connected w = false ->
  connect w
  = (length (promises w),
     snd (setTimer {| delay := 10000; repeat := false;
                      task := ConnectTimeout (length (promises w)) |}
            (set_socket (Some (length (sockets w)))
               (snd (io (length (promises w))
                       (set_promises (promises w ++ [Pending]) w)))))).
Proof.
  intros H. unfold connect, new_promise.
  change (socket_connected (set_promises (promises w ++ [Pending]) w))
    with (socket_connected w).
  now rewrite H.
Qed.

(** The timeout does not close the transport: a 'connect' that arrives
    after it leaves the service connected, [getConnectionStatus()] true,
    while the promise of the call stays rejected. *)
Theorem connect_after_timeout w p w1 :
  socket_connected w = false ->
  isConnected (service w) = false ->
  connect w = (p, w1) ->
  getConnectionStatus
    (deliver (TransportOpen (length (sockets w)))
       (deliver (TimerFire (nextTimer w)) w1)) = true
  /\ promises
       (deliver (TransportOpen (length (sockets w)))
          (deliver (TimerFire (nextTimer w)) w1)) !! p
     = Some (Rejected "Connection timeout").
Proof.
  intros Hs Hc Hconn. rewrite (connect_opening w Hs) in Hconn.
  injection Hconn as <- <-. cbn. rewrite lookup_insert_eq. cbn.
  rewrite Hc. unfold reject.
  rewrite (settle_pending_last (promises w)) by reflexivity. cbn.
  rewrite list_lookup_middle by reflexivity. cbn.
  unfold on_connect, resolve, set_connected. cbn.
  rewrite list_lookup_middle by reflexivity. cbn.
  unfold settle. cbn. rewrite list_lookup_middle by reflexivity.
  unfold getConnectionStatus, socket_connected. cbn.
  rewrite list_lookup_insert_eq by (rewrite length_app; cbn; lia).
  split; [reflexivity|]. now apply list_lookup_middle.
Qed.

End ServiceFacts.

Section ServiceFactsExamples.
Import Browser Examples Scenarios.

Lemma status_gates_room_calls_witness :
  getConnectionStatus connected_world = true
  /\ exists t,
       socket (service connected_world) = Some t
       /\ frames (joinRideRoom 8 7 "admin" connected_world)
          = frames connected_world ++ [(t, JoinRideRoom 8 7 "admin")]
       /\ frames (leaveRideRoom 8 7 connected_world)
          = frames connected_world ++ [(t, LeaveRideRoom 8 7)].
Proof.
  split; [reflexivity|].
  exact (status_gates_room_calls 8 7 "admin" connected_world eq_refl).
Defined.

Lemma connect_after_timeout_witness :
  (socket_connected initial = false
   /\ isConnected (service initial) = false)
  /\ getConnectionStatus
       (deliver (TransportOpen 0)
          (deliver (TimerFire 1) (snd (connect initial)))) = true
  /\ promises
       (deliver (TransportOpen 0)
          (deliver (TimerFire 1) (snd (connect initial)))) !! 0
     = Some (Rejected "Connection timeout").
Proof.
  split; [split; reflexivity|].
  exact (connect_after_timeout initial 0 (snd (connect initial))
           eq_refl eq_refl eq_refl).
Defined.

End ServiceFactsExamples.

(** * Further properties of the view *)

Section ViewSteps.
Import Browser Tracking App Scenarios.

(** A relation between worlds that holds across the calls the view makes
    and across the events of the environment holds across every step. *)
Lemma step_world_ind (R : World -> World -> Prop) :
  (forall w, R w w) ->
  (forall w1 w2 w3, R w1 w2 -> R w2 w3 -> R w1 w3) ->
  (forall rideId userId w, R w (joinRideRoom rideId userId "admin" w)) ->
  (forall rideId userId w, R w (leaveRideRoom rideId userId w)) ->
  (forall tm w, is_feed tm = true -> R w (snd (setTimer tm w))) ->
  (forall id w, R w (clearTimer id w)) ->
  (forall w, R w (disconnect w)) ->
  (forall e w, R w (deliver e w)) ->
  (forall id w, R w (advance id w)) ->
  (forall p r w, R w (settle p r w)) ->
  forall now a x, R (world x) (world (step now a x)).
Proof.
  intros Hrefl Htrans Hjoin Hleave Hset Hclear Hdisc Hdel Hadv Hsettle
    now a x.
  assert (Hstop : forall st w, R w (snd (stopTestMode (st, w)))).
  { intros st w. unfold stopTestMode, clearTestInterval.
    destruct (testIntervalRef st) as [[|n]|]; cbn; auto. }
  assert (Hl : forall st w,
             R w match currentRide st with
                 | Some ride =>
                     if isSocketConnected st
                     then leaveRideRoom (Ride.rideId ride)
                            (Ride.riderId ride) w
                     else w
                 | None => w
                 end).
  { intros st w. destruct (currentRide st), (isSocketConnected st); auto. }
  destruct x as [[st|] w]; unfold step; cbn [view world].
  - destruct (enabled a st w); [|apply Hrefl].
    destruct a as [| | | | |rid rdr nm| | | | |data| |msg|e| |locs];
      cbn [act fst snd world]; auto.
    + unfold startTestMode. destruct (currentRide st) as [ride|]; auto.
      exact (Hset {| delay := 3000; repeat := true;
                     task := TestFeed ride (selectedEmployee st) 0 |}
               w eq_refl).
    + unfold stopTracking.
      eapply Htrans; [apply (Hl st w)|].
      match goal with
      | |- context [stopTestMode (st, ?y)] =>
          specialize (Hstop st y); destruct (stopTestMode (st, y))
      end.
      exact Hstop.
    + unfold handleEmployeeSelect.
      destruct (isSocketConnected st) eqn:Hc; cbn [snd].
      * eapply Htrans; [apply (Hl st w)|]. rewrite Hc. apply Hjoin.
      * specialize (Hl st w). now rewrite Hc in Hl.
    + unfold environment.
      destruct e as [t|t err|t reason|id]; cbn [world]; auto.
      destruct (timers w !! id); cbn [world]; eauto.
    + unfold unmount.
      eapply Htrans; [apply Hdisc|].
      match goal with
      | |- context [stopTestMode (?s, ?y)] =>
          specialize (Hstop s y); destruct (stopTestMode (s, y)) as [st' w']
      end.
      cbn [snd] in Hstop. eapply Htrans; [exact Hstop|].
      eapply Htrans; [|apply Hclear].
      destruct (testIntervalRef st') as [[|n]|]; auto.
    + apply Hsettle.
  - destruct a; cbn [world]; auto.
Qed.

Lemma keeps_settled_refl w : keeps_settled w w.
Proof. now intros p r. Qed.

Lemma keeps_settled_trans w1 w2 w3 :
  keeps_settled w1 w2 -> keeps_settled w2 w3 -> keeps_settled w1 w3.
Proof. intros H1 H2 p r Hp Hr. apply H2; [|exact Hr]. now apply H1. Qed.

Lemma keeps_settled_same w w' :
  promises w' = promises w -> keeps_settled w w'.
Proof. intros H p r. now rewrite H. Qed.

Lemma keeps_settled_settle p r w : keeps_settled w (settle p r w).
Proof.
  intros q s Hq Hs. unfold settle.
  destruct (promises w !! p) as [[| |err]|] eqn:Hp; try exact Hq.
  cbn. destruct (decide (p = q)) as [->|Hne]; [congruence|].
  now rewrite list_lookup_insert_ne.
Qed.

Lemma keeps_settled_connect w : keeps_settled w (snd (connect w)).
Proof.
  unfold connect, new_promise.
  assert (Hnew : keeps_settled w (set_promises (promises w ++ [Pending]) w)).
  { intros p r Hp _. cbn. rewrite lookup_app_l; [exact Hp|].
    now apply lookup_lt_Some in Hp. }
  destruct (socket_connected _); cbn [fst snd].
  - eapply keeps_settled_trans; [exact Hnew|apply keeps_settled_settle].
  - eapply keeps_settled_trans; [exact Hnew|]. now apply keeps_settled_same.
Qed.

Lemma keeps_settled_on_disconnect reason w :
  keeps_settled w (on_disconnect reason w).
Proof.
  apply keeps_settled_same. unfold on_disconnect.
  now destruct (negb _ && _).
Qed.

Lemma keeps_settled_deliver e w : keeps_settled w (deliver e w).
Proof.
  destruct e as [t|t err|t reason|id]; cbn [deliver].
  - destruct (sockets w !! t) as [s|]; [|apply keeps_settled_refl].
    destruct (connected s || destroyed s); [apply keeps_settled_refl|].
    unfold on_connect, resolve.
    eapply keeps_settled_trans; [|apply keeps_settled_settle].
    apply keeps_settled_same. cbn. unfold set_connected.
    now destruct (sockets w !! t).
  - destruct (sockets w !! t) as [s|]; [|apply keeps_settled_refl].
    destruct (connected s || destroyed s); [apply keeps_settled_refl|].
    unfold on_connect_error, reject.
    eapply keeps_settled_trans; [|apply keeps_settled_settle].
    now apply keeps_settled_same.
  - destruct (sockets w !! t) as [s|]; [|apply keeps_settled_refl].
    destruct (connected s); [|apply keeps_settled_refl].
    eapply keeps_settled_trans; [|apply keeps_settled_on_disconnect].
    apply keeps_settled_same. unfold set_connected.
    now destruct (sockets w !! t).
  - destruct (timers w !! id) as [tm|]; [|apply keeps_settled_refl].
    eapply keeps_settled_trans;
      [apply keeps_settled_same
      |destruct (task tm) as [|p|r u i|]; cbn [run_task];
       [apply keeps_settled_connect
       |destruct (isConnected _);
        [apply keeps_settled_refl|apply keeps_settled_settle]
       |apply keeps_settled_refl
       |apply keeps_settled_refl]].
    now destruct (repeat tm).
Qed.

Lemma keeps_settled_step now a x :
  keeps_settled (world x) (world (step now a x)).
Proof.
  apply step_world_ind.
  - apply keeps_settled_refl.
  - apply keeps_settled_trans.
  - intros rideId userId w. apply keeps_settled_same. unfold joinRideRoom.
    now destruct (socket (service w)), (isConnected (service w)).
  - intros rideId userId w. apply keeps_settled_same. unfold leaveRideRoom.
    now destruct (socket (service w)), (isConnected (service w)).
  - intros tm w _. now apply keeps_settled_same.
  - intros id w. now apply keeps_settled_same.
  - intros w. apply keeps_settled_same. apply disconnect_socket.
  - apply keeps_settled_deliver.
  - intros id w. apply keeps_settled_same. apply advance_fields.
  - apply keeps_settled_settle.
Qed.

(** A promise that is resolved or rejected keeps its outcome through every
    step of the view and of the environment: a later timeout, error or
    'connect' cannot change what the caller of [connect()] was told. *)
Theorem settled_stays_settled now a x p r :
  promises (world x) !! p = Some r ->
  r <> Pending ->
  promises (world (step now a x)) !! p = Some r.
Proof. apply keeps_settled_step. Qed.

Lemma disconnect_attempts w :
  reconnectAttempts (service (disconnect w)) = reconnectAttempts (service w).
Proof.
  unfold disconnect. destruct (socket (service w)) as [t|]; [|reflexivity].
  cbn. unfold socket_disconnect.
  destruct (sockets w !! t) as [s|] eqn:Hs; [|reflexivity].
  assert (Hd : service (destroy t w) = service w)
    by (unfold destroy; now rewrite Hs).
  destruct (connected s); [|now rewrite Hd].
  rewrite on_disconnect_stop by now left. cbn.
  now rewrite set_connected_service, Hd.
Qed.

Lemma deliver_attempts_bound e w :
  reconnectAttempts (service w) <= maxReconnectAttempts ->
  reconnectAttempts (service (deliver e w)) <= maxReconnectAttempts.
Proof.
  intros Hle. destruct (is_open e) eqn:Ho.
  - destruct e as [t| | |]; try discriminate. cbn [deliver].
    destruct (sockets w !! t) as [s|]; [|exact Hle].
    destruct (connected s || destroyed s); [exact Hle|].
    unfold on_connect, resolve. rewrite settle_service. cbn. lia.
  - destruct (deliver_attempts e w Ho) as [-> _].
    destruct (unexpected_close e w); cbn [andb]; [|lia].
    destruct (_ <? _) eqn:Hlt; [apply Nat.ltb_lt in Hlt|]; lia.
Qed.

(** In every state the view can reach, whatever the transports and timers
    do, the attempt counter is at most 5. *)
Theorem attempts_bounded x :
  Reachable x -> reconnectAttempts (service (world x)) <= 5.
Proof.
  induction 1 as [|now a x _ IH].
  - cbn. lia.
  - revert IH.
    apply (step_world_ind
             (fun w w' => reconnectAttempts (service w) <= 5 ->
                          reconnectAttempts (service w') <= 5)); auto.
    + intros rideId userId w. unfold joinRideRoom.
      now destruct (socket (service w)), (isConnected (service w)).
    + intros rideId userId w. unfold leaveRideRoom.
      now destruct (socket (service w)), (isConnected (service w)).
    + intros w. now rewrite disconnect_attempts.
    + intros e w. apply deliver_attempts_bound.
    + intros id w. now destruct (advance_fields id w) as (-> & _).
    + intros p r w. now rewrite settle_service.
Qed.

Lemma frames_same w w' : effects w' = effects w -> frames w' = frames w.
Proof. unfold frames. now intros ->. Qed.

Lemma frames_stopTestMode st w :
  frames (snd (stopTestMode (st, w))) = frames w.
Proof.
  unfold stopTestMode, clearTestInterval.
  destruct (testIntervalRef st) as [[|n]|]; cbn [snd]; try reflexivity.
  unfold clearTimer. rewrite frames_perform. now rewrite app_nil_r.
Qed.

Lemma frames_unmount st w : frames (unmount st w) = frames w.
Proof.
  unfold unmount.
  pose proof (frames_stopTestMode (setIsSocketConnected false st)
                (disconnect w)) as Hf.
  destruct (stopTestMode _) as [st' w']. cbn [snd] in Hf.
  assert (Hd : frames (disconnect w) = frames w)
    by (apply frames_same, disconnect_keeps_timers).
  assert (Hc : forall id y, frames (clearTimer id y) = frames y).
  { intros id y. unfold clearTimer. now rewrite frames_perform, app_nil_r. }
  rewrite Hc. destruct (testIntervalRef st') as [[|k]|]; rewrite ?Hc;
    congruence.
Qed.

Lemma frames_environment now e st w :
  frames (world (environment now e st w)) = frames w.
Proof.
  unfold environment.
  destruct e as [t|t err|t reason|id]; cbn [world]; try apply frames_deliver.
  destruct (timers w !! id) eqn:Hid; cbn [world].
  - rewrite (frames_same (deliver (TimerFire id) w)) by apply advance_fields.
    apply frames_deliver.
  - apply frames_deliver.
Qed.

(** Frames are sent by picking a ride and by Stop Tracking only: no other
    control of the view, no socket event, no timer and not even unmounting
    sends one. *)
Theorem frames_only_from_selection now a x :
  (forall rideId riderId employeeName,
     a <> SelectRide rideId riderId employeeName) ->
  a <> StopTracking ->
  frames (world (step now a x)) = frames (world x).
Proof.
  intros Hsel Hstop. destruct x as [[st|] w]; unfold step; cbn [view world].
  - destruct (enabled a st w); [|reflexivity].
    destruct a as [| | | | |rid rdr nm| | | | |data| |msg|e| |locs];
      cbn [act fst snd world]; try reflexivity.
    + unfold startTestMode. destruct (currentRide st); [|reflexivity].
      cbn [snd fst setTimer]. rewrite frames_perform. now rewrite app_nil_r.
    + apply frames_stopTestMode.
    + now destruct Hstop.
    + now destruct (Hsel rid rdr nm).
    + apply frames_environment.
    + apply frames_unmount.
    + apply frames_same, settle_effects.
  - destruct a as [| | | | |rid rdr nm| | | | |data| |msg|e| |locs];
      try reflexivity.
    apply frames_deliver.
Qed.

(** Every join frame the view ever sends carries the role "admin". *)
Theorem joins_are_admin x :
  Reachable x -> Forall is_admin_join (frames (world x)).
Proof.
  induction 1 as [|now a x _ IH].
  - cbn. constructor.
  - revert IH.
    apply (step_world_ind
             (fun w w' => Forall is_admin_join (frames w) ->
                          Forall is_admin_join (frames w'))); auto.
    + intros rideId userId w Hw. unfold joinRideRoom.
      destruct (socket (service w)), (isConnected (service w)); try exact Hw.
      rewrite frames_perform. apply Forall_app. split; [exact Hw|].
      now repeat constructor.
    + intros rideId userId w Hw. unfold leaveRideRoom.
      destruct (socket (service w)), (isConnected (service w)); try exact Hw.
      rewrite frames_perform. apply Forall_app. split; [exact Hw|].
      now repeat constructor.
    + intros tm w _ Hw. cbn [snd setTimer]. rewrite frames_perform.
      now rewrite app_nil_r.
    + intros id w Hw. unfold clearTimer. rewrite frames_perform.
      now rewrite app_nil_r.
    + intros w Hw.
      now rewrite (frames_same w (disconnect w))
        by apply disconnect_keeps_timers.
    + intros e w Hw. now rewrite frames_deliver.
    + intros id w Hw.
      now rewrite (frames_same w (advance id w)) by apply advance_fields.
    + intros p r w Hw.
      now rewrite (frames_same w (settle p r w)) by apply settle_effects.
Qed.

(** The socket listeners are those of the first render, whose handler sees
    no tracked ride: an 'updatePassengers' event never changes the view,
    whatever it carries and whatever ride is tracked by then. *)
Theorem socket_updates_ignored now data x :
  step now (UpdatePassengers data) x = x.
Proof.
  destruct x as [[st|] w]; unfold step; cbn [view world]; [|reflexivity].
  now destruct (enabled _ st w).
Qed.

Lemma connect_keeps_timers w k :
  k < nextTimer w -> timers (snd (connect w)) !! k = timers w !! k.
Proof.
  intros Hlt. unfold connect, new_promise.
  destruct (socket_connected _); cbn [fst snd].
  - unfold resolve. now rewrite settle_timers.
  - cbn. apply lookup_insert_ne. lia.
Qed.

Lemma on_disconnect_keeps_timers reason w k :
  k < nextTimer w -> timers (on_disconnect reason w) !! k = timers w !! k.
Proof.
  intros Hlt. unfold on_disconnect. destruct (negb _ && _); [|reflexivity].
  cbn. apply lookup_insert_ne. lia.
Qed.

(** An interval that is in the table stays there whatever the environment
    does. *)
Lemma deliver_keeps_interval e w k tm :
  timers w !! k = Some tm -> repeat tm = true -> k < nextTimer w ->
  timers (deliver e w) !! k = Some tm.
Proof.
  intros Hk Hr Hlt. destruct e as [t|t err|t reason|id]; cbn [deliver].
  - destruct (sockets w !! t) as [s|]; [|exact Hk].
    destruct (connected s || destroyed s); [exact Hk|].
    unfold on_connect, resolve. rewrite settle_timers. cbn.
    now rewrite set_connected_timers.
  - destruct (sockets w !! t) as [s|]; [|exact Hk].
    destruct (connected s || destroyed s); [exact Hk|].
    unfold on_connect_error, reject. now rewrite settle_timers.
  - destruct (sockets w !! t) as [s|]; [|exact Hk].
    destruct (connected s); [|exact Hk].
    rewrite on_disconnect_keeps_timers
      by now rewrite set_connected_nextTimer.
    now rewrite set_connected_timers.
  - destruct (timers w !! id) as [tm0|] eqn:Hid; [|exact Hk].
    assert (Hk' : timers (if repeat tm0 then w
                          else {| service := service w; sockets := sockets w;
                                  promises := promises w;
                                  timers := delete id (timers w);
                                  nextTimer := nextTimer w;
                                  effects := effects w |}) !! k = Some tm).
    { destruct (repeat tm0) eqn:Hr0; [exact Hk|]. cbn.
      rewrite lookup_delete_ne; [exact Hk|]. intros ->. congruence. }
    assert (Hlt' : k < nextTimer (if repeat tm0 then w
                          else {| service := service w; sockets := sockets w;
                                  promises := promises w;
                                  timers := delete id (timers w);
                                  nextTimer := nextTimer w;
                                  effects := effects w |}))
      by now destruct (repeat tm0).
    destruct (task tm0) as [|p|r u i|]; cbn [run_task].
    + now rewrite connect_keeps_timers.
    + destruct (isConnected _); [exact Hk'|].
      unfold reject. now rewrite settle_timers.
    + exact Hk'.
    + exact Hk'.
Qed.

Lemma stopTestMode_off s : isTestMode (fst (stopTestMode s)) = false.
Proof.
  unfold stopTestMode. now destruct (clearTestInterval s).
Qed.

Lemma handleEmployeeSelect_timers now rideId riderId name st w :
  timers (snd (handleEmployeeSelect now rideId riderId name (st, w)))
  = timers w.
Proof.
  unfold handleEmployeeSelect, joinRideRoom, leaveRideRoom.
  destruct (socket (service w)) eqn:Hs, (isConnected (service w)) eqn:Hc,
    (currentRide st), (isSocketConnected st); cbn;
    rewrite ?Hs, ?Hc; reflexivity.
Qed.

(** While the view says test mode is on, its interval is running: the ref
    holds the handle of a 3000 ms feed interval that is in the timer table,
    whatever transports and timers have done since it was started. *)
Theorem test_mode_has_timer x :
  Reachable x ->
  forall st,
    view x = Some st -> isTestMode st = true ->
    exists k ride sel i,
      testIntervalRef st = Some k
      /\ timers (world x) !! k
         = Some {| delay := 3000; repeat := true;
                   task := TestFeed ride sel i |}.
Proof.
  induction 1 as [|now a x Hreach IH]; [intros st [= <-]; discriminate|].
  apply reachable_feed_inv in Hreach.
  destruct x as [[st0|] w]; unfold step; cbn [view world] in *.
  2: { destruct a; cbn; intros; discriminate. }
  specialize (IH st0 eq_refl).
  destruct (enabled a st0 w) eqn:Hen; [|intros st [= <-]; exact IH].
  destruct a as [| | | | |rid rdr nm| | | | |data| |msg|e| |locs];
    cbn [act world view]; try (intros st [= <-]; exact IH).
  - cbn in Hen. unfold startTestMode.
    destruct (currentRide st0) as [ride|]; [|discriminate].
    intros st [= <-] _. cbn.
    exists (nextTimer w), ride, (selectedEmployee st0), 0.
    split; [reflexivity|apply lookup_insert_eq].
  - pose proof (stopTestMode_off (st0, w)) as Hoff.
    destruct (stopTestMode (st0, w)) as [st1 w1]. cbn [fst snd] in *.
    intros st [= <-]. congruence.
  - unfold stopTracking.
    match goal with
    | |- context [stopTestMode ?s] =>
        pose proof (stopTestMode_off s) as Hoff;
        destruct (stopTestMode s) as [st1 w1]
    end.
    cbn [fst snd] in *. intros st [= <-]. cbn. congruence.
  - destruct (handleEmployeeSelect_feed (clock now) rid rdr nm st0 w)
      as (_ & Hm & Hr).
    pose proof (handleEmployeeSelect_timers (clock now) rid rdr nm st0 w)
      as Ht.
    destruct (handleEmployeeSelect (clock now) rid rdr nm (st0, w))
      as [st1 w1].
    cbn [fst snd] in *. intros st [= <-]. rewrite Hm, Hr, Ht. exact IH.
  - assert (Hd : isTestMode st0 = true ->
                 exists k ride sel i,
                   testIntervalRef st0 = Some k
                   /\ timers (deliver e w) !! k
                      = Some {| delay := 3000; repeat := true;
                                task := TestFeed ride sel i |}).
    { intros Hon. destruct (IH Hon) as (k & r & u & i & Href & Hk).
      exists k, r, u, i. split; [exact Href|].
      apply deliver_keeps_interval; [exact Hk|reflexivity|].
      destruct Hreach as [[_ Hwf] _]. cbn in Hwf.
      now apply (Hwf k _ Hk). }
    unfold environment.
    destruct e as [t|t err|t reason|id]; try (intros st [= <-]; exact Hd).
    destruct (timers w !! id) as [tm|]; [|intros st [= <-]; exact Hd].
    destruct (fire_feed now tm st0) as [Hm Hr].
    intros st [= <-]. cbn [world]. rewrite Hm, Hr. intros Hon.
    destruct (Hd Hon) as (k & r & u & i & Href & Hk).
    destruct (lookup_advance id _ k _ Hk)
      as ([d rp [| |r' u' i'|]] & Hk' & Hf & Hdel & Hrep & _);
      try discriminate.
    cbn in Hdel, Hrep. subst d rp. now exists k, r', u', i'.
  - intros st [= <-]. cbn [world]. unfold resolve.
    rewrite settle_timers. exact IH.
Qed.

End ViewSteps.

Section ViewStepsExamples.
Import Browser Tracking App Examples Scenarios.

Lemma settled_stays_settled_witness :
  (promises (world (after moment running)) !! 0 = Some Resolved
   /\ Resolved <> Pending)
  /\ promises (world (step moment (Environment (TimerFire 1))
                        (after moment running))) !! 0
     = Some Resolved.
Proof.
  assert (H : promises (world (after moment running)) !! 0 = Some Resolved)
    by (vm_compute; reflexivity).
  split; [split; [exact H|discriminate]|].
  apply (settled_stays_settled moment (Environment (TimerFire 1))
           (after moment running) 0 Resolved H). discriminate.
Defined.

Lemma attempts_bounded_witness :
  Reachable (after moment running)
  /\ reconnectAttempts (service (world (after moment running))) <= 5.
Proof.
  split; [apply reachable_after|].
  exact (attempts_bounded (after moment running)
           (reachable_after moment running)).
Defined.

Lemma frames_only_from_selection_witness :
  frames (world (step moment Unmount (after moment running)))
  = frames (world (after moment running)).
Proof.
  apply (frames_only_from_selection moment Unmount (after moment running));
    discriminate.
Defined.

Lemma joins_are_admin_witness :
  Reachable (after moment running)
  /\ frames (world (after moment running)) = [(0, JoinRideRoom 8 7 "admin")]
  /\ Forall is_admin_join (frames (world (after moment running))).
Proof.
  split; [apply reachable_after|]. split; [vm_compute; reflexivity|].
  exact (joins_are_admin (after moment running)
           (reachable_after moment running)).
Defined.

Lemma test_mode_has_timer_witness :
  Reachable (after moment running)
  /\ exists st,
       view (after moment running) = Some st
       /\ isTestMode st = true
       /\ exists k ride sel i,
            testIntervalRef st = Some k
            /\ timers (world (after moment running)) !! k
               = Some {| delay := 3000; repeat := true;
                         task := TestFeed ride sel i |}.
Proof.
  split; [apply reachable_after|].
  destruct (view (after moment running)) as [st|] eqn:Hv;
    [|vm_compute in Hv; discriminate].
  exists st. split; [reflexivity|].
  assert (Hon : isTestMode st = true).
  { vm_compute in Hv. injection Hv as <-. reflexivity. }
  split; [exact Hon|].
  exact (test_mode_has_timer (after moment running)
           (reachable_after moment running) st Hv Hon).
Defined.

End ViewStepsExamples.

(** * Further properties of the tracking handlers *)

Section TrackingFacts.
Import JS Browser Tracking Scenarios.

Lemma pretty_N_go_nonempty x s : s <> "" -> pretty_N_go x s <> "".
Proof.
  revert s. induction (N.lt_wf_0 x) as [x _ IH]; intros s Hs.
  destruct (decide (x = 0%N)) as [->|Hx]; [now rewrite pretty_N_go_0|].
  rewrite pretty_N_go_step by lia. apply IH; [|discriminate].
  apply N.div_lt; lia.
Qed.

(** The decimal text of a ride id is never empty. *)
Lemma pretty_Z_nonempty (z : Z) : pretty z <> "".
Proof.
  assert (Hp : forall p : positive, pretty (Npos p) <> "").
  { intros p. unfold pretty, pretty_N. rewrite decide_False by discriminate.
    rewrite pretty_N_go_step by lia. now apply pretty_N_go_nonempty. }
  destruct z as [|p|p]; unfold pretty, pretty_Z; [discriminate|apply Hp|].
  discriminate.
Qed.

Lemma truthy_pretty (z : Z) : App.truthy_string (Some (pretty z)) = true.
Proof.
  pose proof (pretty_Z_nonempty z) as H. unfold App.truthy_string.
  now destruct (pretty z).
Qed.

Lemma accepted_employees now cur sel data st :
  dropped (handleLocationUpdate now cur sel data st) = false ->
  snd (handleLocationUpdate now cur sel data st)
  = panTo (resolve_lat data) (resolve_lng data)
      (setEmployees
         (map (fun emp =>
                 if is_selected sel emp
                 then moved now (resolve_lat data) (resolve_lng data) data emp
                 else emp)) st).
Proof.
  unfold dropped, handleLocationUpdate.
  destruct (ignored cur data); [discriminate|].
  destruct (placeholder data); [discriminate|].
  now destruct (invalid _ _).
Qed.

Lemma panTo_fields lat lng st :
  employees (panTo lat lng st) = employees st
  /\ currentRide (panTo lat lng st) = currentRide st
  /\ selectedEmployee (panTo lat lng st) = selectedEmployee st
  /\ isSocketConnected (panTo lat lng st) = isSocketConnected st
  /\ socketError (panTo lat lng st) = socketError st.
Proof. unfold panTo. now destruct (mapRef st). Qed.

(** An accepted update keeps the roster as it is, entry by entry, except
    that every entry of the selected employee gets the new coordinates, the
    time of receipt and, when the payload has a non-zero speed, that speed;
    no entry is added, removed or renamed, and the tracked ride, the
    selection and the connection state of the view are untouched. *)
Theorem update_moves_only_selected now cur sel data st :
  dropped (handleLocationUpdate now cur sel data st) = false ->
  length (employees (snd (handleLocationUpdate now cur sel data st)))
  = length (employees st)
  /\ (forall i emp,
        employees st !! i = Some emp ->
        exists emp',
          employees (snd (handleLocationUpdate now cur sel data st)) !! i
          = Some emp'
          /\ Employee.id emp' = Employee.id emp
          /\ Employee.name emp' = Employee.name emp
          /\ Employee.battery emp' = Employee.battery emp
          /\ (is_selected sel emp = false -> emp' = emp)
          /\ (is_selected sel emp = true ->
              Employee.lat emp' = resolve_lat data
              /\ Employee.lng emp' = resolve_lng data
              /\ Employee.lastUpdate emp' = now
              /\ Employee.speed emp'
                 = match speed data with
                   | Some v => if truthy v then Some v else Employee.speed emp
                   | None => Employee.speed emp
                   end))
  /\ currentRide (snd (handleLocationUpdate now cur sel data st))
     = currentRide st
  /\ selectedEmployee (snd (handleLocationUpdate now cur sel data st))
     = selectedEmployee st
  /\ isSocketConnected (snd (handleLocationUpdate now cur sel data st))
     = isSocketConnected st.
Proof.
  intros Hacc. rewrite (accepted_employees _ _ _ _ _ Hacc).
  destruct (panTo_fields (resolve_lat data) (resolve_lng data)
              (setEmployees
                 (map (fun emp =>
                         if is_selected sel emp
                         then moved now (resolve_lat data) (resolve_lng data)
                                data emp
                         else emp)) st)) as (-> & -> & -> & -> & _).
  cbn [employees setEmployees currentRide selectedEmployee isSocketConnected].
  split; [apply length_map|]. split; [|repeat split].
  intros i emp Hi.
  match goal with
  | |- context [map ?f (employees st)] =>
      change (map f (employees st)) with (f <$> employees st);
      exists (f emp)
  end.
  rewrite list_lookup_fmap, Hi. split; [reflexivity|].
  destruct (is_selected sel emp); cbn; repeat split; congruence.
Qed.

(** The roster after [handleEmployeeSelect]. *)
Lemma handleEmployeeSelect_employees now rideId riderId name st w :
  employees (fst (handleEmployeeSelect now rideId riderId name (st, w)))
  = match List.find (fun emp => String.eqb (Employee.id emp) (pretty rideId))
            (employees st) with
    | Some _ => employees st
    | None => employees st ++ [newEmployee now rideId name]
    end.
Proof. unfold handleEmployeeSelect. now destruct (isSocketConnected st). Qed.

Lemma find_snoc {A} (p : A -> bool) l x :
  List.find p (l ++ [x])
  = match List.find p l with
    | Some y => Some y
    | None => if p x then Some x else None
    end.
Proof.
  induction l as [|a l IH]; cbn; [reflexivity|]. now destruct (p a).
Qed.

(** After [handleEmployeeSelect] the roster has an entry for the ride. *)
Lemma handleEmployeeSelect_found now rideId riderId name st w :
  exists emp,
    List.find (fun emp => String.eqb (Employee.id emp) (pretty rideId))
      (employees (fst (handleEmployeeSelect now rideId riderId name (st, w))))
    = Some emp.
Proof.
  rewrite handleEmployeeSelect_employees.
  destruct (List.find _ (employees st)) as [emp|] eqn:Hf.
  - now exists emp.
  - exists (newEmployee now rideId name). rewrite find_snoc, Hf. cbn.
    now rewrite String.eqb_refl.
Qed.

(** Picking a ride puts a marker entry with the ride id as its id on the
    roster: the roster is kept and at most one entry, at the default
    position, is appended; picking the same ride again, at any time and
    with any rider or name, never adds a second one. *)
Theorem select_adds_marker_once now rideId riderId name st w :
  (exists emp,
     In emp (employees
               (fst (handleEmployeeSelect now rideId riderId name (st, w))))
     /\ Employee.id emp = pretty rideId)
  /\ (employees (fst (handleEmployeeSelect now rideId riderId name (st, w)))
      = employees st
      \/ employees (fst (handleEmployeeSelect now rideId riderId name (st, w)))
         = employees st ++ [newEmployee now rideId name])
  /\ forall now' riderId' name' w',
       employees
         (fst (handleEmployeeSelect now' rideId riderId' name'
                 (fst (handleEmployeeSelect now rideId riderId name (st, w)),
                  w')))
       = employees (fst (handleEmployeeSelect now rideId riderId name (st, w))).
Proof.
  set (s1 := handleEmployeeSelect now rideId riderId name (st, w)).
  assert (H1 : employees (fst s1)
               = match List.find
                         (fun emp => String.eqb (Employee.id emp)
                                       (pretty rideId)) (employees st) with
                 | Some _ => employees st
                 | None => employees st ++ [newEmployee now rideId name]
                 end) by apply handleEmployeeSelect_employees.
  destruct (handleEmployeeSelect_found now rideId riderId name st w)
    as [emp Hemp].
  fold s1 in Hemp. split; [|split].
  - exists emp. apply List.find_some in Hemp as [Hin Heq].
    split; [exact Hin|now apply String.eqb_eq].
  - rewrite H1. destruct (List.find _ (employees st)); [now left|now right].
  - intros now' riderId' name' w'.
    destruct (fst s1) as [a b c d e f g h i] eqn:Hs1.
    rewrite handleEmployeeSelect_employees. cbn in Hemp |- *.
    now rewrite Hemp.
Qed.

(** Picking a ride while the view is not connected sends nothing and leaves
    the world as it is; the ride is recorded as the tracked one all the
    same, the picker closes and the error message is set. *)
Theorem select_while_disconnected now rideId riderId name st w :
  isSocketConnected st = false ->
  snd (handleEmployeeSelect now rideId riderId name (st, w)) = w
  /\ currentRide (fst (handleEmployeeSelect now rideId riderId name (st, w)))
     = Some (Ride.mk rideId riderId name)
  /\ selectedEmployee
       (fst (handleEmployeeSelect now rideId riderId name (st, w)))
     = Some (pretty rideId)
  /\ isModalOpen (fst (handleEmployeeSelect now rideId riderId name (st, w)))
     = false
  /\ socketError (fst (handleEmployeeSelect now rideId riderId name (st, w)))
     = Some "Socket disconnected - cannot track in real-time".
Proof.
  intros H. unfold handleEmployeeSelect. rewrite H.
  now destruct (currentRide st).
Qed.

(** After a ride is picked the map draws at least one marker, every marker
    it draws is that ride's, and a click on any of them clears the
    selection. *)
Theorem selected_marker_shown now rideId riderId name st w :
  MapView.employeesToShow
    (selectedEmployee
       (fst (handleEmployeeSelect now rideId riderId name (st, w))))
    (employees (fst (handleEmployeeSelect now rideId riderId name (st, w))))
  <> []
  /\ forall emp,
       In emp
         (MapView.employeesToShow
            (selectedEmployee
               (fst (handleEmployeeSelect now rideId riderId name (st, w))))
            (employees
               (fst (handleEmployeeSelect now rideId riderId name (st, w))))) ->
       Employee.id emp = pretty rideId
       /\ MapView.markerClick
            (selectedEmployee
               (fst (handleEmployeeSelect now rideId riderId name (st, w))))
            emp = None.
Proof.
  destruct (handleEmployeeSelect_found now rideId riderId name st w)
    as [emp0 Hfind].
  apply List.find_some in Hfind as [Hin0 Hid0].
  apply String.eqb_eq in Hid0.
  assert (Hsel : selectedEmployee
                   (fst (handleEmployeeSelect now rideId riderId name (st, w)))
                 = Some (pretty rideId)).
  { unfold handleEmployeeSelect. now destruct (isSocketConnected st). }
  rewrite Hsel. unfold MapView.employeesToShow. rewrite truthy_pretty.
  split.
  - intros Hnil.
    assert (Hin : In emp0
                    (List.filter (is_selected (Some (pretty rideId)))
                       (employees
                          (fst (handleEmployeeSelect now rideId riderId name
                                  (st, w)))))).
    { apply List.filter_In. split; [exact Hin0|]. cbn.
      now apply String.eqb_eq. }
    now rewrite Hnil in Hin.
  - intros emp Hin. apply List.filter_In in Hin as [_ Hs].
    unfold MapView.markerClick. rewrite Hs. split; [|reflexivity].
    now apply String.eqb_eq.
Qed.

(** When an update is accepted by the handler of the render whose selection
    the map shows, every marker the map draws afterwards sits at the
    coordinates of the update. *)
Theorem accepted_update_moves_marker now cur sel data st :
  dropped (handleLocationUpdate now cur sel data st) = false ->
  forall emp,
    In emp
      (MapView.employeesToShow sel
         (employees (snd (handleLocationUpdate now cur sel data st)))) ->
    MapView.position emp = (resolve_lat data, resolve_lng data).
Proof.
  intros Hacc emp. rewrite (accepted_employees _ _ _ _ _ Hacc).
  destruct (panTo_fields (resolve_lat data) (resolve_lng data)
              (setEmployees
                 (map (fun emp =>
                         if is_selected sel emp
                         then moved now (resolve_lat data) (resolve_lng data)
                                data emp
                         else emp)) st)) as (-> & _).
  cbn [employees setEmployees]. unfold MapView.employeesToShow.
  destruct (App.truthy_string sel); [|intros []].
  intros Hin. apply List.filter_In in Hin as [Hin Hs].
  apply List.in_map_iff in Hin as (emp0 & <- & _).
  destruct (is_selected sel emp0) eqn:Hs0; [reflexivity|].
  rewrite Hs0 in Hs. discriminate.
Qed.

Lemma stopTestMode_fields st w :
  employees (fst (stopTestMode (st, w))) = employees st
  /\ isTestMode (fst (stopTestMode (st, w))) = false.
Proof.
  unfold stopTestMode, clearTestInterval.
  now destruct (testIntervalRef st) as [[|n]|].
Qed.

(** Stop Tracking clears the tracked ride, the selection, the error and
    test mode and keeps the roster; afterwards the map draws no marker and
    the handler of the new render ignores every update. *)
Theorem stopTracking_resets st w :
  currentRide (fst (stopTracking (st, w))) = None
  /\ selectedEmployee (fst (stopTracking (st, w))) = None
  /\ socketError (fst (stopTracking (st, w))) = None
  /\ isTestMode (fst (stopTracking (st, w))) = false
  /\ employees (fst (stopTracking (st, w))) = employees st
  /\ MapView.employeesToShow (selectedEmployee (fst (stopTracking (st, w))))
       (employees (fst (stopTracking (st, w)))) = []
  /\ forall now data st',
       handleLocationUpdate now (currentRide (fst (stopTracking (st, w))))
         (selectedEmployee (fst (stopTracking (st, w)))) data st'
       = (IgnoringUpdate, st').
Proof.
  unfold stopTracking.
  match goal with
  | |- context [stopTestMode (st, ?y)] =>
      destruct (stopTestMode_fields st y) as [He Hm];
      destruct (stopTestMode (st, y)) as [st1 w1]
  end.
  cbn [fst snd] in *. cbn. repeat split; assumption.
Qed.

(** Stop Tracking with the view and the service connected sends exactly the
    leave frame of the tracked ride. *)
Theorem stopTracking_leaves st w ride t :
  currentRide st = Some ride ->
  isSocketConnected st = true ->
  socket (service w) = Some t ->
  isConnected (service w) = true ->
  frames (snd (stopTracking (st, w)))
  = frames w ++ [(t, LeaveRideRoom (Ride.rideId ride) (Ride.riderId ride))].
Proof.
  intros Hr Hc Hs Hi. unfold stopTracking. rewrite Hr, Hc.
  unfold leaveRideRoom. rewrite Hs, Hi.
  match goal with
  | |- context [stopTestMode (st, ?y)] =>
      pose proof (frames_stopTestMode st y) as Hf;
      destruct (stopTestMode (st, y)) as [st1 w1]
  end.
  cbn [snd] in *. rewrite Hf. apply frames_perform.
Qed.

End TrackingFacts.

Section TrackingFactsExamples.
Import JS Browser Tracking Examples Scenarios.

Lemma update_moves_only_selected_witness :
  dropped (handleLocationUpdate now (Some ride8) (Some "8") karachi tracking8)
  = false
  /\ length
       (employees
          (snd (handleLocationUpdate now (Some ride8) (Some "8") karachi
                  tracking8)))
     = length (employees tracking8).
Proof.
  assert (H : dropped (handleLocationUpdate now (Some ride8) (Some "8")
                         karachi tracking8) = false)
    by (vm_compute; reflexivity).
  split; [exact H|].
  exact (proj1 (update_moves_only_selected now (Some ride8) (Some "8")
                  karachi tracking8 H)).
Defined.

Lemma select_while_disconnected_witness :
  isSocketConnected initialState = false
  /\ snd (handleEmployeeSelect now 8 7 "John Doe"
            (initialState, Browser.initial)) = Browser.initial.
Proof.
  split; [reflexivity|].
  exact (proj1 (select_while_disconnected now 8 7 "John Doe" initialState
                  Browser.initial eq_refl)).
Defined.

Lemma accepted_update_moves_marker_witness :
  dropped (handleLocationUpdate now (Some ride8) (Some "8") karachi tracking8)
  = false
  /\ forall emp,
       In emp
         (MapView.employeesToShow (Some "8")
            (employees
               (snd (handleLocationUpdate now (Some ride8) (Some "8") karachi
                       tracking8)))) ->
       MapView.position emp = (resolve_lat karachi, resolve_lng karachi).
Proof.
  assert (H : dropped (handleLocationUpdate now (Some ride8) (Some "8")
                         karachi tracking8) = false)
    by (vm_compute; reflexivity).
  split; [exact H|].
  exact (accepted_update_moves_marker now (Some ride8) (Some "8") karachi
           tracking8 H).
Defined.

Lemma stopTracking_leaves_witness :
  (currentRide tracking8 = Some ride8
   /\ isSocketConnected tracking8 = true
   /\ socket (service connected_world) = Some 0
   /\ isConnected (service connected_world) = true)
  /\ frames (snd (stopTracking (tracking8, connected_world)))
     = frames connected_world ++ [(0, LeaveRideRoom 8 7)].
Proof.
  split; [repeat split|].
  exact (stopTracking_leaves tracking8 connected_world ride8 0
           eq_refl eq_refl eq_refl eq_refl).
Defined.

End TrackingFactsExamples.

(** * The synthetic feed *)

Section FeedFacts.
Import JS Tracking Feed.

Variable toString : number -> string.

(** [toString] prints each coordinate of the table as a text that
    [parseFloat] reads back as the same number. *)
Hypothesis round_trip :
  forall loc,
    In loc karachiLocations ->
    parseFloat (toString (fst loc)) = fst loc
    /\ parseFloat (toString (snd loc)) = snd loc.

Lemma location_In i : In (location i) karachiLocations.
Proof.
  unfold location. apply nth_In. apply Nat.mod_upper_bound. discriminate.
Qed.

Lemma location_valid loc :
  In loc karachiLocations ->
  isNaN (fst loc) = false /\ isNaN (snd loc) = false
  /\ is_zero (fst loc) = false /\ is_zero (snd loc) = false.
Proof.
  intros Hin. repeat (destruct Hin as [<-|Hin]; [vm_compute; tauto|]).
  destruct Hin.
Qed.

Lemma not_literal x lit :
  isNaN (parseFloat lit) = true -> isNaN x = false ->
  parseFloat (toString x) = x ->
  eq_literal (Some (VStr (toString x))) lit = false.
Proof.
  intros Hlit Hx Hrt. cbn. destruct (String.eqb_spec (toString x) lit) as [E|];
    [|reflexivity].
  rewrite E in Hrt. rewrite Hrt in Hlit. congruence.
Qed.

(** Every tick is accepted with the coordinates of its table entry. *)
Lemma tick_accepted now ride sel i st :
  fst (snd (tick toString now ride sel i st))
  = UpdatingLocation (fst (location i)) (snd (location i)).
Proof.
  unfold tick. cbn [fst snd].
  pose proof (location_In i) as Hin.
  destruct (round_trip _ Hin) as [Hlat Hlng].
  destruct (location_valid _ Hin) as (Hn1 & Hn2 & Hz1 & Hz2).
  rewrite handleLocationUpdate_accepted.
  - unfold resolve_lat, resolve_lng, mockData. cbn [lat long lng].
    now rewrite Hlat, Hlng.
  - unfold ignored, mockData. cbn [rideId].
    now rewrite Z.eqb_refl, andb_false_r.
  - unfold placeholder, mockData. cbn [lat long].
    rewrite !not_literal by (try reflexivity; assumption). reflexivity.
  - unfold invalid, resolve_lat, resolve_lng, mockData. cbn [lat long lng].
    now rewrite Hlat, Hlng, Hn1, Hn2, Hz1, Hz2.
Qed.

(** Started from counter 0 or any other, [n] ticks of the feed are all
    accepted and report, in order, the table entries at the counter values
    modulo 6; the counter ends [n] higher, and the table repeats with
    period 6. *)
Theorem feed_cycles now ride sel n i st :
  fst (ticks toString now ride sel n i st)
  = map (fun j => UpdatingLocation (fst (location j)) (snd (location j)))
      (seq i n)
  /\ fst (snd (ticks toString now ride sel n i st)) = i + n
  /\ location (i + 6) = location i.
Proof.
  split; [|split].
  - revert i st. induction n as [|n IH]; intros i st; [reflexivity|].
    cbn [ticks seq map].
    pose proof (tick_accepted now ride sel i st) as Ht.
    unfold tick in *. cbn [fst snd] in Ht.
    destruct (handleLocationUpdate _ _ _ _ _) as [d st1]. cbn [fst] in Ht.
    specialize (IH (S i) st1).
    destruct (ticks toString now ride sel n (S i) st1) as [ds r].
    cbn [fst] in *. now rewrite Ht, IH.
  - revert i st. induction n as [|n IH]; intros i st; [cbn; lia|].
    cbn [ticks]. unfold tick.
    destruct (handleLocationUpdate _ _ _ _ _) as [d st1].
    specialize (IH (S i) st1).
    destruct (ticks toString now ride sel n (S i) st1) as [ds r].
    cbn [fst snd] in *. lia.
  - unfold location. f_equal. change (length karachiLocations) with 6.
    rewrite <- (Nat.Div0.mod_add i 1 6). now rewrite Nat.mul_1_l.
Qed.

End FeedFacts.

Section FeedFactsExamples.
Import JS Tracking Feed Examples.

Lemma table_round_trip loc :
  In loc karachiLocations ->
  parseFloat (table_toString (fst loc)) = fst loc
  /\ parseFloat (table_toString (snd loc)) = snd loc.
Proof.
  intros Hin. repeat (destruct Hin as [<-|Hin]; [vm_compute; tauto|]).
  destruct Hin.
Qed.

(** Eight ticks for ride 8: the six entries in order, then the first two
    again. *)
Lemma feed_cycles_witness :
  fst (ticks table_toString now ride8 (Some "8") 8 0 tracking8)
  = map (fun j => UpdatingLocation (fst (location j)) (snd (location j)))
      (seq 0 8).
Proof.
  exact (proj1 (feed_cycles table_toString table_round_trip now ride8
                  (Some "8") 8 0 tracking8)).
Defined.

End FeedFactsExamples.

(** * The ride picker and the request headers *)

Section ModalFacts.
Import JS Browser Tracking Modal Scenarios.

Lemma includes_empty s : includes s "" = true.
Proof. now destruct s. Qed.

Lemma filter_all {A} (p : A -> bool) l :
  (forall x, In x l -> p x = true) -> List.filter p l = l.
Proof.
  induction l as [|a l IH]; intros H; [reflexivity|]. cbn.
  rewrite (H a) by now left. f_equal. apply IH. intros x Hx. apply H.
  now right.
Qed.

Lemma row_status_active ride : row_status (toRow ride) = "Active".
Proof. unfold toRow. cbn. now destruct (status ride). Qed.

(** With an empty search term the picker lists every active ride, in the
    order of the response. *)
Theorem empty_search_lists_all activeRides :
  filteredEmployees "" activeRides = map toRow activeRides.
Proof.
  unfold filteredEmployees. apply filter_all. intros emp _.
  unfold matches. cbn [toLowerCase]. now rewrite includes_empty.
Qed.

(** Every ride is listed with status "Active", STARTED ones too, so a search
    term whose lower case occurs in "active" filters nothing out. *)
Theorem status_search_lists_all searchTerm activeRides :
  includes "active" (toLowerCase searchTerm) = true ->
  filteredEmployees searchTerm activeRides = map toRow activeRides.
Proof.
  intros H. unfold filteredEmployees. apply filter_all. intros emp Hin.
  apply List.in_map_iff in Hin as (ride & <- & _).
  unfold matches. rewrite row_status_active.
  change (toLowerCase "Active") with "active". rewrite H.
  now rewrite !orb_true_r.
Qed.

(** The picker only ever lists rows of rides of the response, each at most
    once per ride, in the order of the response. *)
Lemma filteredEmployees_sublist searchTerm activeRides :
  sublist (filteredEmployees searchTerm activeRides) (map toRow activeRides).
Proof.
  unfold filteredEmployees. induction (map toRow activeRides) as [|a l IH].
  - constructor.
  - cbn. destruct (matches searchTerm a); now constructor.
Qed.

(** A click on a listed ride, with the view and the service connected and
    no ride tracked, sends one join frame: for the ride's id, as "admin",
    on behalf of the ride's rider, or of its creator when the rider id is
    missing or 0, or of the ride id itself when both are; the ride becomes
    the tracked and the selected one. The user id is 0 only if the ride id
    is. *)
Theorem modal_select_joins now ride st w t :
  currentRide st = None ->
  isSocketConnected st = true ->
  socket (service w) = Some t ->
  isConnected (service w) = true ->
  frames (snd (select now (toRow ride) (st, w)))
  = frames w
    ++ [(t, JoinRideRoom (id ride)
              (id_or (riderId ride) (id_or (creatorId ride) (id ride)))
              "admin")]
  /\ currentRide (fst (select now (toRow ride) (st, w)))
     = Some (Ride.mk (id ride)
               (id_or (riderId ride) (id_or (creatorId ride) (id ride)))
               (row_name (toRow ride)))
  /\ selectedEmployee (fst (select now (toRow ride) (st, w)))
     = Some (row_id (toRow ride))
  /\ (id ride <> 0%Z -> row_riderId (toRow ride) <> 0%Z).
Proof.
  intros Hr Hc Hs Hi. unfold select, handleEmployeeSelect.
  rewrite Hr, Hc. cbn [fst snd toRow row_rideId row_riderId row_name row_id].
  unfold joinRideRoom. rewrite Hs, Hi. rewrite frames_perform.
  repeat split. intros Hid. unfold id_or.
  destruct (riderId ride) as [i|]; [destruct (Z.eqb_spec i 0); [|easy]|];
    (destruct (creatorId ride) as [j|];
     [destruct (Z.eqb_spec j 0); easy|easy]).
Qed.

End ModalFacts.

Section ModalFactsExamples.
Import JS Browser Tracking Modal Examples Scenarios.

Lemma status_search_lists_all_witness :
  includes "active" (toLowerCase "TiV") = true
  /\ filteredEmployees "TiV" [ride21] = map toRow [ride21].
Proof.
  split; [reflexivity|].
  exact (status_search_lists_all "TiV" [ride21] eq_refl).
Defined.

Lemma modal_select_joins_witness :
  (currentRide picking = None
   /\ isSocketConnected picking = true
   /\ socket (service connected_world) = Some 0
   /\ isConnected (service connected_world) = true)
  /\ frames (snd (select now (toRow ride21) (picking, connected_world)))
     = frames connected_world ++ [(0, JoinRideRoom 21 12 "admin")].
Proof.
  split; [repeat split|].
  exact (proj1 (modal_select_joins now ride21 picking connected_world 0
                  eq_refl eq_refl eq_refl eq_refl)).
Defined.

End ModalFactsExamples.

Section ApiFacts.
Import Api.

(** The headers always carry the two JSON headers and nothing else, except
    for an Authorization header, which is present exactly when the token is
    a non-empty string and then reads "Bearer " followed by the token. *)
Theorem auth_headers token :
  getAuthHeaders token !! "Content-Type" = Some "application/json"
  /\ getAuthHeaders token !! "Accept" = Some "application/json"
  /\ getAuthHeaders token !! "Authorization"
     = match token with
       | Some (String c t) => Some (String.append "Bearer " (String c t))
       | _ => None
       end
  /\ forall k,
       k <> "Content-Type" -> k <> "Accept" -> k <> "Authorization" ->
       getAuthHeaders token !! k = None.
Proof.
  unfold getAuthHeaders, HEADERS.
  destruct token as [[|c t]|]; repeat split;
    try (intros k H1 H2 H3);
    repeat (rewrite lookup_insert_ne by congruence);
    rewrite ?lookup_insert_eq, ?lookup_empty; reflexivity.
Qed.

End ApiFacts.

(** * The view without a connection, and transports left behind *)

Section Lifecycle.
Import Browser Tracking App Scenarios.

(** The location handler and the callbacks of the intervals leave the
    connection, the picker, the tracked ride and the selection alone. *)
Lemma handleLocationUpdate_view now cur sel data st :
  isSocketConnected (snd (handleLocationUpdate now cur sel data st))
  = isSocketConnected st
  /\ isModalOpen (snd (handleLocationUpdate now cur sel data st))
     = isModalOpen st
  /\ currentRide (snd (handleLocationUpdate now cur sel data st))
     = currentRide st
  /\ selectedEmployee (snd (handleLocationUpdate now cur sel data st))
     = selectedEmployee st.
Proof.
  unfold handleLocationUpdate.
  destruct (ignored cur data); [now repeat split|].
  destruct (placeholder data); [now repeat split|].
  destruct (invalid _ _); [now repeat split|].
  cbn [snd]. unfold panTo. cbn. now destruct (mapRef st).
Qed.

Lemma fire_view now tm st :
  isSocketConnected (fire now tm st) = isSocketConnected st
  /\ isModalOpen (fire now tm st) = isModalOpen st
  /\ currentRide (fire now tm st) = currentRide st
  /\ selectedEmployee (fire now tm st) = selectedEmployee st.
Proof.
  unfold fire. destruct (task tm) as [|p|ride sel i|]; try now repeat split.
  unfold Feed.tick. cbn [snd]. apply handleLocationUpdate_view.
Qed.

(** Nothing happens in a view whose first [connect()] has not resolved: no
    ride is tracked or selected, the picker is closed, test mode is off and
    no frame has been sent. So a failed or pending connection leaves the
    view inert, and whatever was sent was sent after the connection was
    established. *)
Theorem idle_until_connected x :
  Reachable x ->
  promises (world x) !! 0 <> Some Resolved ->
  frames (world x) = []
  /\ forall st,
       view x = Some st ->
       isSocketConnected st = false
       /\ isModalOpen st = false
       /\ currentRide st = None
       /\ selectedEmployee st = None
       /\ isTestMode st = false.
Proof.
  induction 1 as [|now a x Hreach IH].
  - intros _. split; [reflexivity|]. intros st [= <-]. repeat split.
  - assert (Hcase : promises (world x) !! 0 = Some Resolved
                    \/ promises (world x) !! 0 <> Some Resolved).
    { destruct (promises (world x) !! 0) as [[| |err]|];
        [right; discriminate|now left|right; discriminate..]. }
    destruct Hcase as [Hres|Hno].
    { intros Hno'. destruct Hno'.
      now apply (keeps_settled_step now a x). }
    specialize (IH Hno). destruct IH as [Hfr Hview]. intros Hno'.
    destruct x as [[st|] w]; unfold step in *; cbn [view world] in *.
    + destruct (Hview st eq_refl) as (Hc & Hm & Hr & Hs & Ht).
      destruct (enabled a st w) eqn:Hen;
        [|split; [exact Hfr|intros st' [= <-]; repeat split; assumption]].
      destruct a as [| | | | |rid rdr nm| | | | |data| |msg|e| |locs];
        cbn [enabled] in Hen; rewrite ?Hc, ?Hm, ?Hr, ?Hs, ?Ht in Hen;
        cbn in Hen; try discriminate.
      * destruct (existsb _ _) eqn:Hex; [|discriminate].
        apply existsb_exists in Hex as (emp & _ & Hemp). discriminate.
      * destruct (promises w !! 0) as [[]|]; try discriminate.
        now destruct Hno.
      * cbn [act view world]. split; [exact Hfr|].
        intros st' [= <-]. cbn. repeat split; assumption.
      * cbn [act view world] in *.
        split; [now rewrite frames_environment|].
        unfold environment.
        destruct e as [t|t err|t reason|id];
          try (intros st' [= <-]; repeat split; assumption).
        destruct (timers w !! id) as [tm|];
          [|intros st' [= <-]; repeat split; assumption].
        destruct (fire_view now tm st) as (Fc & Fm & Fr & Fs).
        destruct (fire_feed now tm st) as (Ft & _).
        intros st' [= <-]. rewrite Fc, Fm, Fr, Fs, Ft.
        repeat split; assumption.
      * cbn [act view world]. split; [|intros st'; discriminate].
        pose proof (frames_unmount st w) as Hu. congruence.
      * cbn [act view world]. split.
        -- rewrite <- Hfr. apply frames_same, settle_effects.
        -- intros st' [= <-]. repeat split; assumption.
    + destruct a as [| | | | |rid rdr nm| | | | |data| |msg|e| |locs];
        cbn [view world] in *; try (split; [exact Hfr|intros; discriminate]).
      split; [now rewrite frames_deliver|intros; discriminate].
Qed.

Lemma settle_sockets p r w : sockets (settle p r w) = sockets w.
Proof. unfold settle. now destruct (promises w !! p) as [[]|]. Qed.

Lemma on_disconnect_sockets reason w :
  sockets (on_disconnect reason w) = sockets w.
Proof. unfold on_disconnect. now destruct (negb _ && _). Qed.

Lemma connect_sockets w :
  sockets (snd (connect w)) = sockets w
  \/ sockets (snd (connect w))
     = sockets w ++ [{| connected := false; destroyed := false;
                        owner := length (promises w) |}].
Proof.
  unfold connect, new_promise. destruct (socket_connected _); cbn [fst snd].
  - left. unfold resolve. now rewrite settle_sockets.
  - now right.
Qed.

Lemma set_connected_socket t' b w t s :
  sockets w !! t = Some s ->
  exists s',
    sockets (set_connected t' b w) !! t = Some s'
    /\ destroyed s' = destroyed s /\ owner s' = owner s.
Proof.
  intros Ht. unfold set_connected.
  destruct (sockets w !! t') as [s0|] eqn:Ht'; [|now exists s].
  cbn. destruct (decide (t' = t)) as [->|Hne].
  - rewrite list_lookup_insert_eq by now apply lookup_lt_Some in Ht.
    eexists. split; [reflexivity|]. cbn. split; congruence.
  - rewrite list_lookup_insert_ne by exact Hne. now exists s.
Qed.

Lemma deliver_keeps_socket e w t s :
  sockets w !! t = Some s ->
  exists s',
    sockets (deliver e w) !! t = Some s'
    /\ destroyed s' = destroyed s /\ owner s' = owner s.
Proof.
  intros Ht. destruct e as [t'|t' err|t' reason|id]; cbn [deliver].
  - destruct (sockets w !! t') as [s0|]; [|now exists s].
    destruct (connected s0 || destroyed s0); [now exists s|].
    unfold on_connect, resolve. rewrite settle_sockets. cbn.
    now apply set_connected_socket.
  - destruct (sockets w !! t') as [s0|]; [|now exists s].
    destruct (connected s0 || destroyed s0); [now exists s|].
    unfold on_connect_error, reject. rewrite settle_sockets. now exists s.
  - destruct (sockets w !! t') as [s0|]; [|now exists s].
    destruct (connected s0); [|now exists s].
    rewrite on_disconnect_sockets. now apply set_connected_socket.
  - destruct (timers w !! id) as [tm|]; [|now exists s].
    exists s. split; [|now split].
    destruct (task tm) as [|p|r u i|]; cbn [run_task].
    + match goal with
      | |- context [connect ?y] =>
          assert (Hy : sockets y = sockets w) by (now destruct (repeat tm));
          destruct (connect_sockets y) as [Hc|Hc]; rewrite Hc, Hy
      end; [exact Ht|].
      rewrite lookup_app_l; [exact Ht|]. now apply lookup_lt_Some in Ht.
    + destruct (repeat tm), (isConnected _); cbn; try exact Ht;
        unfold reject; now rewrite settle_sockets.
    + now destruct (repeat tm).
    + now destruct (repeat tm).
Qed.

(** A transport is never closed behind the caller's back: whatever events
    and timers run, every transport that exists stays in place with the
    promise it belongs to and is not destroyed; [connect()] leaves the
    existing transports untouched, also the one it replaces; and
    [disconnect()] touches no transport but the current one. *)
Theorem transports_left_open w t s :
  sockets w !! t = Some s ->
  (forall es, exists s',
      sockets (run es w) !! t = Some s'
      /\ destroyed s' = destroyed s /\ owner s' = owner s)
  /\ sockets (snd (connect w)) !! t = Some s
  /\ (socket (service w) <> Some t -> sockets (disconnect w) !! t = Some s).
Proof.
  intros Ht. split; [|split].
  - intros es. revert w s Ht. induction es as [|e es IH]; intros w s Ht.
    + now exists s.
    + destruct (deliver_keeps_socket e w t s Ht) as (s1 & H1 & Hd1 & Ho1).
      destruct (IH (deliver e w) s1 H1) as (s2 & H2 & Hd2 & Ho2).
      exists s2. split; [exact H2|]. split; congruence.
  - destruct (connect_sockets w) as [->| ->]; [exact Ht|].
    rewrite lookup_app_l; [exact Ht|]. now apply lookup_lt_Some in Ht.
  - intros Hne. unfold disconnect.
    destruct (socket (service w)) as [t0|]; [|exact Ht]. cbn.
    assert (Hne' : t0 <> t) by congruence.
    unfold socket_disconnect. destruct (sockets w !! t0) as [s0|] eqn:H0;
      [|exact Ht].
    assert (Hd : sockets (destroy t0 w) !! t = Some s).
    { unfold destroy. rewrite H0. cbn.
      now rewrite list_lookup_insert_ne. }
    destruct (connected s0); [|exact Hd].
    rewrite on_disconnect_sockets. unfold set_connected.
    destruct (sockets (destroy t0 w) !! t0); [|exact Hd]. cbn.
    now rewrite list_lookup_insert_ne.
Qed.

End Lifecycle.

Section LifecycleExamples.
Import Browser Tracking App Examples Scenarios.

(** The first [connect()] timed out: nothing was sent and the view shows no
    connection. *)
Lemma idle_until_connected_witness :
  (Reachable (after moment [Environment (TimerFire 1); ConnectRejected])
   /\ promises (world (after moment [Environment (TimerFire 1);
                                   ConnectRejected])) !! 0
      <> Some Resolved)
  /\ frames (world (after moment [Environment (TimerFire 1); ConnectRejected]))
     = [].
Proof.
  assert (H : promises (world (after moment [Environment (TimerFire 1);
                                          ConnectRejected])) !! 0
              <> Some Resolved) by (vm_compute; discriminate).
  split; [split; [apply reachable_after|exact H]|].
  exact (proj1 (idle_until_connected _ (reachable_after moment _) H)).
Defined.

(** Transport 0 of six connected ones stays open through a reconnect and a
    [disconnect()] of the current transport 5. *)
Lemma transports_left_open_witness :
  sockets six_connected !! 0
  = Some {| connected := true; destroyed := false; owner := 0 |}
  /\ sockets (snd (connect six_connected)) !! 0
     = Some {| connected := true; destroyed := false; owner := 0 |}
  /\ sockets (disconnect six_connected) !! 0
     = Some {| connected := true; destroyed := false; owner := 0 |}.
Proof.
  assert (H : sockets six_connected !! 0
              = Some {| connected := true; destroyed := false; owner := 0 |})
    by (vm_compute; reflexivity).
  split; [exact H|].
  destruct (transports_left_open six_connected 0 _ H) as (_ & Hc & Hd).
  split; [exact Hc|]. apply Hd. vm_compute. discriminate.
Defined.

End LifecycleExamples.

(** * Room switches and the outcome of [connect()] *)

Section RoomSwitch.
Import Browser Tracking App Scenarios.

(** C7, where the code breaks it: with the picker open while ride B is
    tracked and the connection is up, picking ride C sends the leave frame
    of B and then the join frame of C. But the 'roomLeft' listener clears
    [currentRide] whatever ride the acknowledgement is for, also that of
    the leave sent when B was picked: once it has run, picking ride C sends
    the join frame of C alone, and the client stays in the room of B. *)
Theorem leave_skipped_after_roomLeft now1 now2 x st b rideC riderC name t :
  view x = Some st ->
  currentRide st = Some b ->
  isSocketConnected st = true ->
  isModalOpen st = true ->
  socket (service (world x)) = Some t ->
  isConnected (service (world x)) = true ->
  frames (world (step now2 (SelectRide rideC riderC name) x))
  = frames (world x)
    ++ [(t, LeaveRideRoom (Ride.rideId b) (Ride.riderId b));
        (t, JoinRideRoom rideC riderC "admin")]
  /\ step now1 RoomLeft x
     = {| view := Some (setCurrentRide None st); world := world x |}
  /\ frames (world (step now2 (SelectRide rideC riderC name)
                      (step now1 RoomLeft x)))
     = frames (world x) ++ [(t, JoinRideRoom rideC riderC "admin")].
Proof.
  intros Hv Hb Hc Hm Hs Hi. destruct x as [v w]. cbn [view world] in *.
  subst v.
  assert (Hsel : forall st' nw,
             isSocketConnected st' = true ->
             frames (snd (handleEmployeeSelect nw rideC riderC name (st', w)))
             = frames w
               ++ match currentRide st' with
                  | Some a =>
                      [(t, LeaveRideRoom (Ride.rideId a) (Ride.riderId a))]
                  | None => []
                  end
               ++ [(t, JoinRideRoom rideC riderC "admin")]).
  { intros st' nw Hc'. unfold handleEmployeeSelect. rewrite Hc'. cbn [snd].
    unfold joinRideRoom, leaveRideRoom.
    destruct (currentRide st') as [a|]; rewrite ?Hs, ?Hi;
      cbn [service perform]; rewrite ?Hs, ?Hi; rewrite !frames_perform;
      now rewrite <- ?app_assoc. }
  unfold step. cbn [view world enabled]. rewrite Hc, Hm.
  cbn [act view world enabled isModalOpen setCurrentRide]. rewrite Hm.
  cbn [act world snd]. split; [|split; [reflexivity|]].
  - rewrite (Hsel st _ Hc), Hb. reflexivity.
  - rewrite (Hsel (setCurrentRide None st) _ Hc). reflexivity.
Qed.

End RoomSwitch.

Section RoomSwitchExamples.
Import Browser Tracking App Examples Scenarios.

(** Ride 8 is picked, then ride 9 (leave 8, join 9); the picker is opened
    again, the acknowledgement of the leave of ride 8 arrives, and ride 10
    is picked: no leave frame for ride 9 is sent. *)
Lemma leave_skipped_after_roomLeft_witness :
  Reachable switched
  /\ (exists st,
        view switched = Some st
        /\ currentRide st = Some (Ride.mk 9 4 "Jane Roe")
        /\ isSocketConnected st = true
        /\ isModalOpen st = true)
  /\ frames (world (step moment (SelectRide 10 5 "Ali Khan")
                      (step moment RoomLeft switched)))
     = [(0, JoinRideRoom 8 7 "admin"); (0, LeaveRideRoom 8 7);
        (0, JoinRideRoom 9 4 "admin"); (0, JoinRideRoom 10 5 "admin")].
Proof.
  assert (Hst : exists st,
             view switched = Some st
             /\ currentRide st = Some (Ride.mk 9 4 "Jane Roe")
             /\ isSocketConnected st = true
             /\ isModalOpen st = true)
    by (vm_compute; eexists; repeat split).
  split; [apply reachable_after|]. split; [exact Hst|].
  destruct Hst as (st & Hv & Hb & Hc & Hm).
  destruct (leave_skipped_after_roomLeft moment moment switched st
              (Ride.mk 9 4 "Jane Roe") 10 5 "Ali Khan" 0 Hv Hb Hc Hm
              eq_refl eq_refl) as (_ & _ & ->).
  reflexivity.
Defined.

End RoomSwitchExamples.

Section ConnectOutcomes.
Import Browser Examples Scenarios.

(** A timer stays in the table, under its handle, until it fires. *)
Lemma deliver_keeps_timer e w k tm :
  timers w !! k = Some tm -> k < nextTimer w -> e <> TimerFire k ->
  timers (deliver e w) !! k = Some tm /\ k < nextTimer (deliver e w).
Proof.
  intros Hk Hlt Hne.
  split; [|destruct (service_timers_deliver e w) as [Hn _]; lia].
  destruct e as [t|t err|t reason|id]; cbn [deliver].
  - destruct (sockets w !! t) as [s|]; [|exact Hk].
    destruct (connected s || destroyed s); [exact Hk|].
    unfold on_connect, resolve. rewrite settle_timers. cbn.
    now rewrite set_connected_timers.
  - destruct (sockets w !! t) as [s|]; [|exact Hk].
    destruct (connected s || destroyed s); [exact Hk|].
    unfold on_connect_error, reject. now rewrite settle_timers.
  - destruct (sockets w !! t) as [s|]; [|exact Hk].
    destruct (connected s); [|exact Hk].
    rewrite on_disconnect_keeps_timers
      by now rewrite set_connected_nextTimer.
    now rewrite set_connected_timers.
  - destruct (timers w !! id) as [tm0|] eqn:Hid; [|exact Hk].
    assert (Hid' : id <> k) by congruence.
    match goal with
    | |- context [run_task _ ?y] =>
        assert (Hy : timers y !! k = Some tm /\ k < nextTimer y)
    end.
    { destruct (repeat tm0); [now split|]. cbn.
      now rewrite lookup_delete_ne. }
    destruct Hy as [Hy Hlt'].
    destruct (task tm0) as [|p|r u i|]; cbn [run_task]; try exact Hy.
    + now rewrite connect_keeps_timers.
    + destruct (isConnected _); [exact Hy|].
      unfold reject. now rewrite settle_timers.
Qed.

Lemma run_keeps_timer es : forall w k tm,
  timers w !! k = Some tm -> k < nextTimer w ->
  Forall (fun e => e <> TimerFire k) es ->
  timers (run es w) !! k = Some tm.
Proof.
  induction es as [|e es IH]; intros w k tm Hk Hlt Hes; [exact Hk|].
  apply Forall_cons in Hes as [He Hes].
  destruct (deliver_keeps_timer e w k tm Hk Hlt He) as [Hk' Hlt'].
  exact (IH (deliver e w) k tm Hk' Hlt' Hes).
Qed.

Lemma run_keeps_socket es : forall w t s,
  sockets w !! t = Some s ->
  exists s',
    sockets (run es w) !! t = Some s'
    /\ destroyed s' = destroyed s /\ owner s' = owner s.
Proof.
  induction es as [|e es IH]; intros w t s Ht; [now exists s|].
  destruct (deliver_keeps_socket e w t s Ht) as (s1 & H1 & Hd1 & Ho1).
  destruct (IH (deliver e w) t s1 H1) as (s2 & H2 & Hd2 & Ho2).
  exists s2. split; [exact H2|]. split; congruence.
Qed.

(** A [connect()] that opens a transport registers a 10000 ms one-shot
    timer for its promise. The timer stays registered, whatever else
    happens, until it fires. When it fires it is removed and changes
    neither the transports, the service fields nor the effects; the promise
    is rejected with "Connection timeout" exactly when it is still pending
    and [isConnected] is false at that moment, and keeps its state
    otherwise, for instance the error of an earlier 'connect_error'. *)
Theorem connect_timeout_rejects w p w1 :
  socket_connected w = false ->
  connect w = (p, w1) ->
  timers w1 !! nextTimer w
  = Some {| delay := 10000; repeat := false; task := ConnectTimeout p |}
  /\ (forall es,
        Forall (fun e => e <> TimerFire (nextTimer w)) es ->
        timers (run es w1) !! nextTimer w
        = Some {| delay := 10000; repeat := false;
                  task := ConnectTimeout p |})
  /\ (forall w2,
        timers w2 !! nextTimer w
        = Some {| delay := 10000; repeat := false;
                  task := ConnectTimeout p |} ->
        timers (deliver (TimerFire (nextTimer w)) w2)
        = delete (nextTimer w) (timers w2)
        /\ sockets (deliver (TimerFire (nextTimer w)) w2) = sockets w2
        /\ service (deliver (TimerFire (nextTimer w)) w2) = service w2
        /\ effects (deliver (TimerFire (nextTimer w)) w2) = effects w2
        /\ promises (deliver (TimerFire (nextTimer w)) w2) !! p
           = match promises w2 !! p with
             | Some Pending =>
                 if isConnected (service w2) then Some Pending
                 else Some (Rejected "Connection timeout")
             | o => o
             end).
Proof.
  intros Hs Hconn. rewrite (connect_opening w Hs) in Hconn.
  injection Hconn as <- <-.
  assert (H1 : timers
                 (snd (setTimer
                         {| delay := 10000; repeat := false;
                            task := ConnectTimeout (length (promises w)) |}
                         (set_socket (Some (length (sockets w)))
                            (snd (io (length (promises w))
                                    (set_promises (promises w ++ [Pending])
                                       w)))))) !! nextTimer w
               = Some {| delay := 10000; repeat := false;
                         task := ConnectTimeout (length (promises w)) |})
    by (cbn; apply lookup_insert_eq).
  split; [exact H1|]. split.
  - intros es Hes. apply run_keeps_timer; [exact H1|cbn; lia|exact Hes].
  - intros w2 Hk. cbn [deliver]. rewrite Hk. cbn [repeat task run_task].
    cbn [service]. destruct (isConnected (service w2)) eqn:Hc.
    + cbn. repeat split. now destruct (promises w2 !! _) as [[| |err]|].
    + unfold reject.
      rewrite settle_timers, settle_service, settle_effects, settle_sockets,
        settle_lookup.
      cbn. repeat split. now destruct (decide _).
Qed.

(** A [connect()] that opens a transport owns it: whatever happens, the
    transport stays the one of that promise and is not destroyed by events.
    A 'connect_error' of that transport, at any later time at which it is
    not connected, sets [isConnected] to false and rejects the promise with
    the error if it is still pending; a promise that is settled already,
    for instance by the timeout, keeps its outcome. The event schedules no
    reconnect and changes no timer, no transport and no other field of the
    service. *)
Theorem connect_error_rejects w p w1 :
  socket_connected w = false ->
  connect w = (p, w1) ->
  sockets w1 !! length (sockets w)
  = Some {| connected := false; destroyed := false; owner := p |}
  /\ (forall es,
        exists s,
          sockets (run es w1) !! length (sockets w) = Some s
          /\ destroyed s = false /\ owner s = p)
  /\ (forall w2 s error,
        sockets w2 !! length (sockets w) = Some s ->
        owner s = p -> connected s = false -> destroyed s = false ->
        isConnected
          (service (deliver (TransportError (length (sockets w)) error) w2))
        = false
        /\ socket
             (service (deliver (TransportError (length (sockets w)) error)
                         w2))
           = socket (service w2)
        /\ reconnectAttempts
             (service (deliver (TransportError (length (sockets w)) error)
                         w2))
           = reconnectAttempts (service w2)
        /\ sockets (deliver (TransportError (length (sockets w)) error) w2)
           = sockets w2
        /\ timers (deliver (TransportError (length (sockets w)) error) w2)
           = timers w2
        /\ effects (deliver (TransportError (length (sockets w)) error) w2)
           = effects w2
        /\ promises (deliver (TransportError (length (sockets w)) error) w2)
             !! p
           = match promises w2 !! p with
             | Some Pending => Some (Rejected error)
             | o => o
             end).
Proof.
  intros Hs Hconn. rewrite (connect_opening w Hs) in Hconn.
  injection Hconn as <- <-.
  assert (H1 : sockets
                 (snd (setTimer
                         {| delay := 10000; repeat := false;
                            task := ConnectTimeout (length (promises w)) |}
                         (set_socket (Some (length (sockets w)))
                            (snd (io (length (promises w))
                                    (set_promises (promises w ++ [Pending])
                                       w)))))) !! length (sockets w)
               = Some {| connected := false; destroyed := false;
                         owner := length (promises w) |})
    by (cbn; now apply list_lookup_middle).
  split; [exact H1|]. split.
  - intros es. destruct (run_keeps_socket es _ _ _ H1) as (s & Hs' & Hd & Ho).
    exists s. now repeat split.
  - intros w2 s error Ht Ho Hc Hd. cbn [deliver]. rewrite Ht, Hc, Hd.
    cbn [orb]. unfold on_connect_error, reject.
    rewrite settle_timers, settle_service, settle_effects, settle_sockets,
      settle_lookup, Ho.
    cbn. repeat split. now destruct (decide _).
Qed.

End ConnectOutcomes.

Section ConnectOutcomesExamples.
Import Browser Examples Scenarios.

(** The timeout of the first [connect()]: fired at once it rejects the
    promise; fired after a 'connect_error' it leaves the error in place. *)
Lemma connect_timeout_rejects_witness :
  socket_connected initial = false
  /\ promises (deliver (TimerFire 1) (snd (connect initial))) !! 0
     = Some (Rejected "Connection timeout")
  /\ promises
       (deliver (TimerFire 1)
          (run [TransportError 0 "websocket error"] (snd (connect initial))))
       !! 0
     = Some (Rejected "websocket error").
Proof.
  destruct (connect_timeout_rejects initial 0 (snd (connect initial))
              eq_refl eq_refl) as (H1 & Hrun & Hfire).
  split; [reflexivity|]. split.
  - destruct (Hfire _ H1) as (_ & _ & _ & _ & H). exact H.
  - assert (Hes : Forall (fun e => e <> TimerFire (nextTimer initial))
                    [TransportError 0 "websocket error"])
      by (repeat constructor; discriminate).
    destruct (Hfire _ (Hrun _ Hes)) as (_ & _ & _ & _ & H). exact H.
Defined.

(** A 'connect_error' of the first transport: at once it rejects the
    promise with the error; after the timeout it leaves "Connection
    timeout" in place. *)
Lemma connect_error_rejects_witness :
  socket_connected initial = false
  /\ promises
       (deliver (TransportError 0 "websocket error") (snd (connect initial)))
       !! 0
     = Some (Rejected "websocket error")
  /\ promises
       (deliver (TransportError 0 "websocket error")
          (deliver (TimerFire 1) (snd (connect initial)))) !! 0
     = Some (Rejected "Connection timeout").
Proof.
  destruct (connect_error_rejects initial 0 (snd (connect initial))
              eq_refl eq_refl) as (H1 & _ & Herr).
  split; [reflexivity|]. split.
  - destruct (Herr _ _ "websocket error" H1 eq_refl eq_refl eq_refl)
      as (_ & _ & _ & _ & _ & _ & H).
    exact H.
  - assert (H2 : sockets (deliver (TimerFire 1) (snd (connect initial)))
                   !! length (sockets initial)
                 = Some {| connected := false; destroyed := false;
                           owner := 0 |})
      by reflexivity.
    destruct (Herr _ _ "websocket error" H2 eq_refl eq_refl eq_refl)
      as (_ & _ & _ & _ & _ & _ & H).
    exact H.
Defined.

End ConnectOutcomesExamples.
